(** * WignerBlochFFTW1D: the Bloch (imaginary-time) propagator of FastWigner

    A shallow embedding of [wigner_bloch_fftw_1d.py] (Python 2, numpy).

    - Python floats are kept abstract behind the interface [FloatOps]; the
      interface is instantiated twice: by IEEE binary64 ([PrimFloat]), which
      is what the interpreter runs, and by the real numbers, the exact
      arithmetic in which the numerical invariants are stated.
    - numpy arrays are flat lists of floats (row-major), with numpy's
      broadcasting of one-element arrays.
    - The constructor is written in a state-and-exception monad over the
      interpreter state: the dictionaries on the heap, the text printed so
      far and the attributes of the object under construction.
    - The exponential is that of the real numbers in exact arithmetic.
      On binary64 it is the C library's: fixed on NaN, at zero and beyond
      the range of the format, and a parameter in between.
    - The parent class [WignerMoyalFTTW1D] lives in another file: its
      constructor and its Fourier transforms are parameters, and its
      [set_wignerfunction] and [propagate] follow the specification.
    - The example that closes the source file contributes its harmonic
      oscillator and the range its temperatures are drawn from.

    The file has three parts: the model, the definitions the statements
    are written with, and the properties. *)

From Stdlib Require Import ZArith Reals Lra Lia List String.
From Stdlib Require Import Floats.
From stdpp Require Import gmap strings.

Set Implicit Arguments.
Unset Strict Implicit.
Set Default Proof Using "Type".

Local Open Scope string_scope.
Local Open Scope Z_scope.

(** ** Python exceptions and results *)

Inductive exn : Type :=
  | KeyError (key : string)
  | AttributeError (msg : string)
  | TypeError (msg : string)
  | ZeroDivisionError (msg : string)
  | OverflowError (msg : string)
  | ValueError (msg : string)
  | ForeignError (msg : string).

Inductive result (A : Type) : Type :=
  | Ok (a : A)
  | Raise (e : exn).
Arguments Ok {A} a.
Arguments Raise {A} e.

Definition rbind {A B} (r : result A) (k : A -> result B) : result B :=
  match r with
  | Ok a => k a
  | Raise e => Raise e
  end.

Definition is_ok {A} (r : result A) : bool :=
  match r with Ok _ => true | Raise _ => false end.

#[export] Instance result_ret : MRet result := fun _ a => Ok a.
#[export] Instance result_bind : MBind result := fun _ _ k r => rbind r k.

(** The messages of the exceptions the interpreter itself raises. *)
Definition not_callable : string := "'NotImplementedType' object is not callable".
Definition float_div_zero : string := "float division by zero".
Definition bad_operand : string := "unsupported operand type(s)".
Definition bad_arity : string := "takes a different number of arguments".
Definition bad_broadcast : string := "operands could not be broadcast together".
Definition empty_min : string := "zero-size array to reduction operation minimum which has no identity".
Definition inf_to_int : string := "cannot convert float infinity to integer".
Definition nan_to_int : string := "cannot convert float NaN to integer".

(** ** The float interface *)

Class FloatOps (F : Type) : Type := {
  f_zero : F;
  f_one : F;
  f_half : F;                      (* the literal 0.5 *)
  f_centi : F;                     (* the literal 0.01 *)
  f_add : F -> F -> F;
  f_sub : F -> F -> F;
  f_mul : F -> F -> F;
  f_div : F -> F -> F;
  f_opp : F -> F;
  f_abs : F -> F;
  f_ltb : F -> F -> bool;
  f_leb : F -> F -> bool;
  f_eqb : F -> F -> bool;
  f_floor : F -> F;
  f_is_nan : F -> bool;
  f_is_inf : F -> bool;
  f_trunc : F -> Z                 (* toward zero, on finite values *)
}.

(** The exponential of the C library, which [numpy.exp] applies. *)
Class ExpOps (F : Type) : Type := f_exp : F -> F.

Section Arithmetic.
Context {F : Type} {FO : FloatOps F}.

(** [a / b] on Python floats: a zero divisor raises. *)
Definition py_div (a b : F) : result F :=
  if f_eqb b f_zero then Raise (ZeroDivisionError float_div_zero)
  else Ok (f_div a b).

(** The builtin [round(x)] of Python 2 with no digits: the nearest
    integral float, halves away from zero; infinities and NaN unchanged. *)
Definition py_round (x : F) : F :=
  if f_is_nan x || f_is_inf x then x
  else
    let absx := f_abs x in
    let y := f_floor absx in
    let y' := if f_leb f_half (f_sub absx y) then f_add y f_one else y in
    if f_ltb x f_zero then f_opp y' else y'.

(** The builtin [int(x)] on a float. *)
Definition py_int (x : F) : result Z :=
  if f_is_nan x then Raise (ValueError nan_to_int)
  else if f_is_inf x then Raise (OverflowError inf_to_int)
  else Ok (f_trunc x).

End Arithmetic.

Arguments py_round {F FO} x : simpl never.
Arguments py_div {F FO} a b : simpl never.
Arguments py_int {F FO} x : simpl never.

(** ** Instance: exact real arithmetic *)

Definition Rltb (a b : R) : bool := if Rlt_dec a b then true else false.
Definition Rleb (a b : R) : bool := if Rle_dec a b then true else false.
Definition Reqb (a b : R) : bool := if Req_dec_T a b then true else false.

Definition Rtrunc (x : R) : Z :=
  if Rle_dec 0 x then Int_part x else - Int_part (- x).

#[export] Instance real_ops : FloatOps R := {|
  f_zero := 0%R;
  f_one := 1%R;
  f_half := (1 / 2)%R;
  f_centi := (1 / 100)%R;
  f_add := Rplus;
  f_sub := Rminus;
  f_mul := Rmult;
  f_div := Rdiv;
  f_opp := Ropp;
  f_abs := Rabs;
  f_ltb := Rltb;
  f_leb := Rleb;
  f_eqb := Reqb;
  f_floor := fun x => IZR (Int_part x);
  f_is_nan := fun _ => false;
  f_is_inf := fun _ => false;
  f_trunc := Rtrunc
|}.

#[export] Instance real_exp : ExpOps R := exp.

(** ** Instance: IEEE binary64, the floats of the interpreter *)

Module Binary64.

Definition two52 : float := 4503599627370496%float.

(** [floor] of the C library.  A finite float of magnitude at least 2^52
    is integral; below, adding and subtracting 2^52 rounds to an integer
    (to nearest, ties to even), which is corrected downwards. *)
Definition floor (x : float) : float :=
  if PrimFloat.ltb (PrimFloat.abs x) two52 then
    let r :=
      if PrimFloat.ltb x 0%float
      then ((x - two52) + two52)%float
      else ((x + two52) - two52)%float in
    if PrimFloat.ltb x r then (r - 1)%float else r
  else x.

(** The integer a finite float denotes after truncation toward zero. *)
Definition trunc (x : float) : Z :=
  match Prim2SF x with
  | S754_finite s m e =>
      let a := if (0 <=? e)%Z then Z.shiftl (Zpos m) e
               else Z.shiftr (Zpos m) (- e) in
      if s then - a else a
  | _ => 0
  end.

#[global] Instance ops : FloatOps float := {|
  f_zero := 0%float;
  f_one := 1%float;
  f_half := 0.5%float;
  f_centi := 0x1.47ae147ae147bp-7%float;   (* the double nearest to 0.01 *)
  f_add := PrimFloat.add;
  f_sub := PrimFloat.sub;
  f_mul := PrimFloat.mul;
  f_div := PrimFloat.div;
  f_opp := PrimFloat.opp;
  f_abs := PrimFloat.abs;
  f_ltb := PrimFloat.ltb;
  f_leb := PrimFloat.leb;
  f_eqb := PrimFloat.eqb;
  f_floor := floor;
  f_is_nan := PrimFloat.is_nan;
  f_is_inf := PrimFloat.is_infinity;
  f_trunc := trunc
|}.

End Binary64.



(** ** Values, arrays and objects *)

Section Model.
Context {F : Type} {FO : FloatOps F} {EO : ExpOps F}.

(** The energy terms [K] and [V] of the Hamiltonian: Python callables of
    the argument alone or of the argument and the time, applied to an
    array pointwise. *)
Inductive callable : Type :=
  | Static (f : F -> F)
  | TimeDependent (f : F -> F -> F).

(** Values of keyword arguments.  Numbers are floats: an [int] operand
    becomes one in the first mixed operation. *)
Inductive pyval : Type :=
  | VFloat (x : F)
  | VCallable (c : callable).

(** The two types [num_beta_steps] goes through. *)
Inductive pynum : Type :=
  | NFloat (x : F)
  | NInt (n : Z).

Definition ndarray : Type := list F.

(** *** numpy *)

(** [a op b] on arrays: equal shapes, or one operand of a single element. *)
Definition np_binop (op : F -> F -> F) (a b : ndarray) : result ndarray :=
  match a, b with
  | [x], _ => Ok (map (op x) b)
  | _, [y] => Ok (map (fun x => op x y) a)
  | _, _ =>
      if Nat.eqb (length a) (length b) then Ok (zip_with op a b)
      else Raise (ValueError bad_broadcast)
  end.

(** [a op= b]: the result is stored in [a], so [a] is not stretched. *)
Definition np_inplace (op : F -> F -> F) (a b : ndarray) : result ndarray :=
  match b with
  | [y] => Ok (map (fun x => op x y) a)
  | _ =>
      if Nat.eqb (length a) (length b) then Ok (zip_with op a b)
      else Raise (ValueError bad_broadcast)
  end.

(** [c * a] and [a op= c] with a scalar [c]. *)
Definition np_scale (c : F) (a : ndarray) : ndarray := map (f_mul c) a.
Definition np_isub_scalar (a : ndarray) (c : F) : ndarray :=
  map (fun x => f_sub x c) a.
Definition np_imul_scalar (a : ndarray) (c : F) : ndarray :=
  map (fun x => f_mul x c) a.

(** [a.min()] *)
Definition np_min (a : ndarray) : result F :=
  match a with
  | [] => Raise (ValueError empty_min)
  | x :: xs => Ok (fold_left (fun m y => if f_ltb y m then y else m) xs x)
  end.

(** [np.exp(a, out=a)] *)
Definition np_exp (a : ndarray) : ndarray := map f_exp a.

(** Calling an energy term with one argument, and with the time. *)
Definition call1 (c : callable) (a : ndarray) : result ndarray :=
  match c with
  | Static f => Ok (map f a)
  | TimeDependent _ => Raise (TypeError bad_arity)
  end.

Definition call2 (c : callable) (a : ndarray) (time : F) : result ndarray :=
  match c with
  | Static _ => Raise (TypeError bad_arity)
  | TimeDependent f => Ok (map (fun x => f x time) a)
  end.

(** *** Arithmetic on values *)

(** [v > 0].  Python 2 orders a number below any other object. *)
Definition py_gt_zero (v : pyval) : bool :=
  match v with
  | VFloat x => f_ltb f_zero x
  | VCallable _ => true
  end.

Definition py_mul (v w : pyval) : result F :=
  match v, w with
  | VFloat x, VFloat y => Ok (f_mul x y)
  | _, _ => Raise (TypeError bad_operand)
  end.

Definition py_float (v : pyval) : result F :=
  match v with
  | VFloat x => Ok x
  | VCallable _ => Raise (TypeError bad_operand)
  end.

(** *** The object *)

(** Modelled from the spec: the attributes of the parent class
    [WignerMoyalFTTW1D], which is not part of this file.  Those the source
    reads or writes keep their names; [ehrenfest_steps] counts the steps
    whose expectation values were recorded. *)
Record Engine : Type := mkEngine {
  X : ndarray;
  P : ndarray;
  Theta : ndarray;
  Lambda : ndarray;
  abs_boundary : ndarray;
  t : F;
  dt : F;
  V : callable;
  K : callable;
  isEhrenfest : bool;
  wignerfunction : ndarray;
  ehrenfest_steps : nat      (* steps whose expectation values were recorded *)
}.

(** What [get_exp_v(t)] and [get_exp_k(t)] are bound to. *)
Inductive accessor : Type :=
  | CachedExpV                (* lambda self, t: self._expV *)
  | CachedExpK.               (* lambda self, t: self._expK *)

Record instance : Type := mkInstance {
  kT : option pyval;
  dbeta : option pyval;
  num_beta_steps : option pynum;
  engine : option Engine;
  _expV : option ndarray;
  _expK : option ndarray;
  get_exp_v : option accessor;
  get_exp_k : option accessor
}.

Definition blank : instance := mkInstance None None None None None None None None.

(** *** The interpreter state *)

Definition loc : Type := positive.
Local Abbreviation dict := (gmap string pyval).

(** A line sent to standard output: a format with one [%f] and its argument. *)
Record printed : Type := Printed { fmt : string; arg : F }.

Record state : Type := mkState {
  heap : gmap loc dict;
  stdout : list printed;
  self : instance
}.

Definition M (A : Type) : Type := state -> state * result A.

Definition ret {A} (a : A) : M A := fun s => (s, Ok a).
Definition bind {A B} (m : M A) (k : A -> M B) : M B :=
  fun s => match m s with
           | (s', Ok a) => k a s'
           | (s', Raise e) => (s', Raise e)
           end.
Definition raise {A} (e : exn) : M A := fun s => (s, Raise e).
Definition lift {A} (r : result A) : M A := fun s => (s, r).

#[export] Instance M_ret : MRet M := @ret.
#[export] Instance M_bind : MBind M := fun _ _ k m => bind m k.

(** [try: body except E: handler] *)
Definition try_except {A} (body : M A) (E : exn -> bool) (handler : M A) : M A :=
  fun s => match body s with
           | (s', Ok a) => (s', Ok a)
           | (s', Raise e) => if E e then handler s' else (s', Raise e)
           end.

Definition is_KeyError (e : exn) : bool :=
  match e with KeyError _ => true | _ => false end.
Definition is_TypeError (e : exn) : bool :=
  match e with TypeError _ => true | _ => false end.

Definition print (line : printed) : M unit :=
  fun s => (mkState (heap s) (stdout s ++ [line]) (self s), Ok tt).

Definition get_self : M instance := fun s => (s, Ok (self s)).
Definition modify_self (f : instance -> instance) : M unit :=
  fun s => (mkState (heap s) (stdout s) (f (self s)), Ok tt).

(** Reading an attribute that has not been assigned raises. *)
Definition getattr {A} (name : string) (field : instance -> option A) : M A :=
  fun s => match field (self s) with
           | Some a => (s, Ok a)
           | None => (s, Raise (AttributeError name))
           end.

(** Dictionaries live on the heap and are passed by reference. *)
Definition dict_read (d : loc) : M dict :=
  fun s => match heap s !! d with
           | Some m => (s, Ok m)
           | None => (s, Raise (ForeignError "dangling reference"))
           end.

Definition dict_alloc (m : dict) : M loc :=
  fun s => let d := fresh (dom (heap s)) in
           (mkState (<[d := m]> (heap s)) (stdout s) (self s), Ok d).

(** [d[key]] *)
Definition dict_getitem (d : loc) (key : string) : M pyval :=
  m ← dict_read d;
  match m !! key with
  | Some v => ret v
  | None => raise (KeyError key)
  end.

(** [d.update(k1=v1, ...)] *)
Definition dict_write (d : loc) (m : dict) : M unit :=
  fun s => (mkState (<[d := m]> (heap s)) (stdout s) (self s), Ok tt).

Definition dict_update (d : loc) (entries : list (string * pyval)) : M unit :=
  m ← dict_read d;
  dict_write d (foldl (fun acc kv => <[kv.1 := kv.2]> acc) m entries).

(** *** Attribute assignment *)

Definition set_kT (v : pyval) (i : instance) : instance :=
  mkInstance (Some v) (dbeta i) (num_beta_steps i) (engine i)
             (_expV i) (_expK i) (get_exp_v i) (get_exp_k i).
Definition set_dbeta (v : pyval) (i : instance) : instance :=
  mkInstance (kT i) (Some v) (num_beta_steps i) (engine i)
             (_expV i) (_expK i) (get_exp_v i) (get_exp_k i).
Definition set_num_beta_steps (n : pynum) (i : instance) : instance :=
  mkInstance (kT i) (dbeta i) (Some n) (engine i)
             (_expV i) (_expK i) (get_exp_v i) (get_exp_k i).
Definition set_engine (e : Engine) (i : instance) : instance :=
  mkInstance (kT i) (dbeta i) (num_beta_steps i) (Some e)
             (_expV i) (_expK i) (get_exp_v i) (get_exp_k i).
Definition set_expV (a : ndarray) (i : instance) : instance :=
  mkInstance (kT i) (dbeta i) (num_beta_steps i) (engine i)
             (Some a) (_expK i) (get_exp_v i) (get_exp_k i).
Definition set_expK (a : ndarray) (i : instance) : instance :=
  mkInstance (kT i) (dbeta i) (num_beta_steps i) (engine i)
             (_expV i) (Some a) (get_exp_v i) (get_exp_k i).
Definition set_get_exp_v (a : accessor) (i : instance) : instance :=
  mkInstance (kT i) (dbeta i) (num_beta_steps i) (engine i)
             (_expV i) (_expK i) (Some a) (get_exp_k i).
Definition set_get_exp_k (a : accessor) (i : instance) : instance :=
  mkInstance (kT i) (dbeta i) (num_beta_steps i) (engine i)
             (_expV i) (_expK i) (get_exp_v i) (Some a).

Definition set_isEhrenfest (b : bool) (e : Engine) : Engine :=
  mkEngine (X e) (P e) (Theta e) (Lambda e) (abs_boundary e) (t e) (dt e)
           (V e) (K e) b (wignerfunction e) (ehrenfest_steps e).
Definition set_wigner (w : ndarray) (n : nat) (e : Engine) : Engine :=
  mkEngine (X e) (P e) (Theta e) (Lambda e) (abs_boundary e) (t e) (dt e)
           (V e) (K e) (isEhrenfest e) w n.

(** ** The constructor, [WignerBlochFFTW1D.__init__] *)

(** The constructor of the parent class, which builds the grid, the
    absorbing boundary and the energy terms from the keyword arguments. *)
Variable parent_init : dict -> result Engine.

Definition no_temperature : string := "Temperature (kT) was not specified".
Definition warn_potential : string :=
  "Warning: The potential energy is time dependent. The Gibbs state will be calculated with respect to time t = %f.".
Definition warn_kinetic : string :=
  "Warning: The kinetic energy is time dependent. The Gibbs state will be calculated with respect to time t = %f.".

(** Lines 22-25. *)
Definition init_temperature (kwargs : loc) : M unit :=
  v ← try_except (dict_getitem kwargs "kT") is_KeyError
        (raise (AttributeError no_temperature));
  modify_self (set_kT v).

Definition py_int_of (n : pynum) : result Z :=
  match n with
  | NFloat x => py_int x
  | NInt k => Ok k
  end.

(** Lines 27-45.  [NotImplemented] is a constant, not an exception class:
    the call [NotImplemented("...")] of line 45 raises [TypeError]. *)
Definition init_schedule (kwargs : loc) : M unit :=
  temp ← getattr "kT" kT;
  if py_gt_zero temp then
    d0 ← try_except (dict_getitem kwargs "dbeta") is_KeyError
           (ret (VFloat f_centi));
    modify_self (set_dbeta d0);;
    prod ← lift (py_mul temp d0);
    raw ← lift (py_div f_one prod);
    modify_self (set_num_beta_steps (NFloat raw));;
    (if negb (f_eqb (py_round raw) raw) then
       let n := py_round raw in
       modify_self (set_num_beta_steps (NFloat n));;
       prod' ← lift (py_mul temp (VFloat n));
       q ← lift (py_div f_one prod');
       modify_self (set_dbeta (VFloat q))
     else ret tt);;
    steps ← getattr "num_beta_steps" num_beta_steps;
    n ← lift (py_int_of steps);
    modify_self (set_num_beta_steps (NInt n))
  else raise (TypeError not_callable).

(** Lines 47-54. *)
Definition init_parent (kwargs : loc) : M unit :=
  d ← getattr "dbeta" dbeta;
  dict_update kwargs [("dbeta", d); ("dt", d)];;
  m ← dict_read kwargs;
  e ← lift (parent_init m);
  modify_self (set_engine e);;
  modify_self (set_engine (set_isEhrenfest false e)).

(** Line 66 and line 72: the sum of the potential at the two shifted points. *)
Definition potential_sum (e : Engine) : result ndarray :=
  a ← np_binop f_sub (X e) (np_scale f_half (Theta e));
  va ← call1 (V e) a;
  b ← np_binop f_add (X e) (np_scale f_half (Theta e));
  vb ← call1 (V e) b;
  np_binop f_add va vb.

Definition potential_sum_at (e : Engine) (time : F) : result ndarray :=
  a ← np_binop f_sub (X e) (np_scale f_half (Theta e));
  va ← call2 (V e) a time;
  b ← np_binop f_add (X e) (np_scale f_half (Theta e));
  vb ← call2 (V e) b time;
  np_binop f_add va vb.

(** Lines 65-82. *)
Definition init_expV : M unit :=
  e ← getattr "V" engine;
  s ← try_except (lift (potential_sum e)) is_TypeError
        (print (Printed warn_potential (t e));;
         lift (potential_sum_at e (t e)));
  modify_self (set_expV s);;
  a ← getattr "_expV" _expV;
  m ← lift (np_min a);
  modify_self (set_expV (np_isub_scalar a m));;
  a ← getattr "_expV" _expV;
  d ← getattr "dbeta" dbeta;
  step ← lift (py_float d);
  modify_self (set_expV (np_imul_scalar a (f_mul (f_opp step) f_half)));;
  a ← getattr "_expV" _expV;
  modify_self (set_expV (np_exp a));;
  a ← getattr "_expV" _expV;
  e ← getattr "abs_boundary" engine;
  r ← lift (np_inplace f_mul a (abs_boundary e));
  modify_self (set_expV r);;
  modify_self (set_get_exp_v CachedExpV).

(** Line 87 and line 93. *)
Definition kinetic_sum (e : Engine) : result ndarray :=
  a ← np_binop f_add (P e) (np_scale f_half (Lambda e));
  ka ← call1 (K e) a;
  b ← np_binop f_sub (P e) (np_scale f_half (Lambda e));
  kb ← call1 (K e) b;
  np_binop f_add ka kb.

Definition kinetic_sum_at (e : Engine) (time : F) : result ndarray :=
  a ← np_binop f_add (P e) (np_scale f_half (Lambda e));
  ka ← call2 (K e) a time;
  b ← np_binop f_sub (P e) (np_scale f_half (Lambda e));
  kb ← call2 (K e) b time;
  np_binop f_add ka kb.

(** Lines 86-100. *)
Definition init_expK : M unit :=
  e ← getattr "K" engine;
  s ← try_except (lift (kinetic_sum e)) is_TypeError
        (print (Printed warn_kinetic (t e));;
         lift (kinetic_sum_at e (t e)));
  modify_self (set_expK s);;
  a ← getattr "_expK" _expK;
  m ← lift (np_min a);
  modify_self (set_expK (np_isub_scalar a m));;
  a ← getattr "_expK" _expK;
  d ← getattr "dbeta" dbeta;
  step ← lift (py_float d);
  modify_self (set_expK (np_imul_scalar a (f_opp step)));;
  a ← getattr "_expK" _expK;
  modify_self (set_expK (np_exp a));;
  modify_self (set_get_exp_k CachedExpK).

Definition __init__ (kwargs : loc) : M unit :=
  init_temperature kwargs;;
  init_schedule kwargs;;
  init_parent kwargs;;
  init_expV;;
  init_expK.

(** Instantiation with the dictionary [params] unpacked into keyword
    arguments: [__init__] receives them in a dictionary of its own, and
    the object starts without attributes. *)
Definition WignerBlochFFTW1D (params : loc) : M unit :=
  m ← dict_read params;
  kwargs ← dict_alloc m;
  modify_self (fun _ => blank);;
  __init__ kwargs.

(** ** The Gibbs state, [get_gibbs_state] *)

(** The Fourier transforms of the parent class between the
    position/Theta and the momentum/Lambda representations. *)
Variable to_dual : ndarray -> ndarray.
Variable from_dual : ndarray -> ndarray.

(** Calling [get_exp_v(t)] or [get_exp_k(t)] as the constructor bound them. *)
Definition call_accessor (a : accessor) : M ndarray :=
  match a with
  | CachedExpV => getattr "_expV" _expV
  | CachedExpK => getattr "_expK" _expK
  end.

(** Modelled from the spec: [set_wignerfunction] of the parent class, which
    is not part of this file.  Given a function of (x, p) it replaces the
    current distribution by its values on the grid. *)
Definition set_wignerfunction (f : F -> F -> F) : M unit :=
  e ← getattr "X" engine;
  w ← lift (np_binop f (X e) (P e));
  modify_self (set_engine (set_wigner w (ehrenfest_steps e) e)).

(** Modelled from the spec: one operator-split step of the parent class.
    The distribution is multiplied by the potential kernel, transformed,
    multiplied by the kinetic kernel, transformed back and multiplied by
    the potential kernel again; the kernels are those the accessors
    return.  Expectation values are recorded only under [isEhrenfest]. *)
Definition single_step : M unit :=
  e ← getattr "wignerfunction" engine;
  av ← getattr "get_exp_v" get_exp_v;
  ev ← call_accessor av;
  w1 ← lift (np_inplace f_mul (wignerfunction e) ev);
  ak ← getattr "get_exp_k" get_exp_k;
  ek ← call_accessor ak;
  w2 ← lift (np_inplace f_mul (to_dual w1) ek);
  w3 ← lift (np_inplace f_mul (from_dual w2) ev);
  let recorded := if isEhrenfest e then S (ehrenfest_steps e)
                  else ehrenfest_steps e in
  modify_self (set_engine (set_wigner w3 recorded e)).

Fixpoint steps (n : nat) : M unit :=
  match n with
  | O => ret tt
  | S k => single_step;; steps k
  end.

(** Modelled from the spec: [propagate] of the parent class advances the
    distribution by the given number of steps and returns it. *)
Definition propagate (n : pynum) : M ndarray :=
  match n with
  | NInt k =>
      steps (Z.to_nat k);;
      e ← getattr "wignerfunction" engine;
      ret (wignerfunction e)
  | NFloat _ => raise (TypeError "integer expected")
  end.

(** Lines 102-109. *)
Definition get_gibbs_state : M ndarray :=
  set_wignerfunction
    (fun x p => f_add (f_add (f_mul f_zero x) (f_mul f_zero p)) f_one);;
  n ← getattr "num_beta_steps" num_beta_steps;
  propagate n.

End Model.

(** Dictionaries of keyword arguments. *)
Abbreviation dict F := (gmap string (@pyval F)).

(** * Derived definitions

    What the statements below are written with: the states the
    constructor passes through, its result as a function of the keyword
    arguments, the kernels in closed form, the formulas of the
    specification, and a small concrete grid for the examples. *)

Section Derived.
Context {F : Type} {FO : FloatOps F} {EO : ExpOps F}.

(** The state in which [__init__] starts: the keyword arguments [m] in a
    dictionary of their own, and an object without attributes. *)
Definition entry (s : @state F) (m : dict F) : @state F :=
  mkState (<[fresh (dom (heap s)) := m]> (heap s)) (stdout s) blank.

Definition with_self (s : @state F) (i : @instance F) : @state F :=
  mkState (heap s) (stdout s) i.

(** The pair (dbeta, num_beta_steps) that lines 35-42 leave in the object,
    as a function of the temperature [k] and of the increment [d0] that
    line 29 or line 32 assigned. *)
Definition resolved_schedule (k d0 : F) : result (F * Z) :=
  raw ← py_div f_one (f_mul k d0);
  if negb (f_eqb (py_round raw) raw) then
    q ← py_div f_one (f_mul k (py_round raw));
    n ← py_int (py_round raw);
    Ok (q, n)
  else
    n ← py_int raw;
    Ok (d0, n).

(** The increment line 29 reads, or the default of line 32. *)
Definition initial_dbeta (m : dict F) : pyval :=
  match m !! "dbeta" with
  | Some v => v
  | None => VFloat f_centi
  end.

Definition scheduled (q : F) (n : Z) (i : @instance F) : @instance F :=
  set_num_beta_steps (NInt n) (set_dbeta (VFloat q) i).

(** What a failed statement leaves untouched: the dictionaries, the output
    and every attribute other than [dbeta] and [num_beta_steps]. *)
Definition same_but_schedule (s s' : @state F) : Prop :=
  heap s' = heap s /\ stdout s' = stdout s
  /\ kT (self s') = kT (self s) /\ engine (self s') = engine (self s)
  /\ _expV (self s') = _expV (self s) /\ _expK (self s') = _expK (self s)
  /\ get_exp_v (self s') = get_exp_v (self s)
  /\ get_exp_k (self s') = get_exp_k (self s).

(** The keyword arguments the parent constructor receives. *)
Definition parent_kwargs (q : F) (m : dict F) : dict F :=
  <["dt" := VFloat q]> (<["dbeta" := VFloat q]> m).

(** The energy sums of lines 66 and 87, with the fall-back of the
    [except TypeError] clauses, and what the fall-back prints. *)
Definition potential_values (e : @Engine F) : result (ndarray * list printed) :=
  match potential_sum e with
  | Ok a => Ok (a, [])
  | Raise (TypeError _) =>
      a ← potential_sum_at e (t e);
      Ok (a, [Printed warn_potential (t e)])
  | Raise err => Raise err
  end.

Definition kinetic_values (e : @Engine F) : result (ndarray * list printed) :=
  match kinetic_sum e with
  | Ok a => Ok (a, [])
  | Raise (TypeError _) =>
      a ← kinetic_sum_at e (t e);
      Ok (a, [Printed warn_kinetic (t e)])
  | Raise err => Raise err
  end.

(** Lines 74-76 and 95-97: the kernel before any mask, for the factor
    [coef] the shifted sum is multiplied by. *)
Definition raw_kernel (coef : F) (a : ndarray) : result ndarray :=
  m ← np_min a;
  Ok (np_exp (np_imul_scalar (np_isub_scalar a m) coef)).

Definition expV_value (q : F) (e : @Engine F) : result (ndarray * list printed) :=
  '(a, out) ← potential_values e;
  raw ← raw_kernel (f_mul (f_opp q) f_half) a;
  k ← np_inplace f_mul raw (abs_boundary e);
  Ok (k, out).

Definition expK_value (q : F) (e : @Engine F) : result (ndarray * list printed) :=
  '(a, out) ← kinetic_values e;
  raw ← raw_kernel (f_opp q) a;
  Ok (raw, out).

(** Lines 27-45 for any value of [kT]: a callable passes the test of line
    27 and fails in the product of line 35, as does a callable [dbeta]. *)
Definition schedule_value (v : pyval) (m : dict F) : result (F * F * Z) :=
  if py_gt_zero v then
    match v, initial_dbeta m with
    | VFloat k, VFloat d0 => '(q, n) ← resolved_schedule k d0; Ok (k, q, n)
    | _, _ => Raise (TypeError bad_operand)
    end
  else Raise (TypeError not_callable).

(** Everything a construction from the keyword arguments [m] produces: the
    temperature, the resolved schedule, the parent state, the two kernels
    and the lines printed. *)
Record built : Type := mkBuilt {
  b_kT : F;
  b_dbeta : F;
  b_steps : Z;
  b_engine : @Engine F;
  b_expV : @ndarray F;
  b_expK : @ndarray F;
  b_out : list (@printed F)
}.

Definition construct_value
    (parent_init : dict F -> result (@Engine F)) (m : dict F) : result built :=
  v ← match m !! "kT" with
      | Some v => Ok v
      | None => Raise (AttributeError no_temperature)
      end;
  '(k, q, n) ← schedule_value v m;
  e ← parent_init (parent_kwargs q m);
  '(kv, outv) ← expV_value q (set_isEhrenfest false e);
  '(kk, outk) ← expK_value q (set_isEhrenfest false e);
  Ok (mkBuilt k q n (set_isEhrenfest false e) kv kk (outv ++ outk)).

Definition instance_of (b : built) : @instance F :=
  mkInstance (Some (VFloat (b_kT b))) (Some (VFloat (b_dbeta b)))
             (Some (NInt (b_steps b))) (Some (b_engine b))
             (Some (b_expV b)) (Some (b_expK b))
             (Some CachedExpV) (Some CachedExpK).

(** The least entry, as [min()] finds it. *)
Definition array_min (a : @ndarray F) : F :=
  match a with
  | [] => f_zero
  | x :: xs => fold_left (fun m y => if f_ltb y m then y else m) xs x
  end.

(** The function of the argument alone an energy term is at a given time. *)
Definition eval_at (c : @callable F) (time : F) : F -> F :=
  match c with
  | Static f => f
  | TimeDependent f => fun x => f x time
  end.

Definition time_dependent (c : @callable F) : bool :=
  match c with
  | Static _ => false
  | TimeDependent _ => true
  end.

(** What the fall-back prints for a term, if anything. *)
Definition warning (c : @callable F) (text : string) (time : F) : list (@printed F) :=
  if time_dependent c then [Printed text time] else [].

(** Entry by entry: the sums of lines 66 and 87 and the kernel of lines
    74-76 and 95-97. *)
Definition potential_at (f : F -> F) (x theta : F) : F :=
  f_add (f (f_sub x (f_mul f_half theta))) (f (f_add x (f_mul f_half theta))).

Definition kinetic_at (f : F -> F) (p lambda : F) : F :=
  f_add (f (f_add p (f_mul f_half lambda))) (f (f_sub p (f_mul f_half lambda))).

Definition weights (coef : F) (a : @ndarray F) : @ndarray F :=
  map (fun x => f_exp (f_mul (f_sub x (array_min a)) coef)) a.

(** The grid has one shape and at least one point. *)
Definition well_shaped (e : @Engine F) : Prop :=
  X e <> []
  /\ length (Theta e) = length (X e)
  /\ length (abs_boundary e) = length (X e)
  /\ P e <> []
  /\ length (Lambda e) = length (P e).

(** The cached kernels in closed form. *)
Definition potential_kernel (q : F) (e : @Engine F) : @ndarray F :=
  zip_with f_mul
    (weights (f_mul (f_opp q) f_half)
       (zip_with (potential_at (eval_at (V e) (t e))) (X e) (Theta e)))
    (abs_boundary e).

Definition kinetic_kernel (q : F) (e : @Engine F) : @ndarray F :=
  weights (f_opp q)
    (zip_with (kinetic_at (eval_at (K e) (t e))) (P e) (Lambda e)).

(** The state a completed construction from [m] leaves. *)
Definition after_construction (s : @state F) (m : dict F) (b : built) : @state F :=
  mkState (<[fresh (dom (heap s)) := parent_kwargs (b_dbeta b) m]> (heap s))
          (stdout s ++ b_out b)
          (instance_of b).

(** The time does not matter to terms that do not take it. *)
Definition same_time (e1 e2 : @Engine F) : Prop :=
  t e1 = t e2
  \/ (time_dependent (V e1) = false /\ time_dependent (K e1) = false).

(** The flag is off and [c] steps have had their expectation values
    recorded. *)
Definition quiet (c : nat) (s : @state F) : Prop :=
  exists e, engine (self s) = Some e
            /\ isEhrenfest e = false /\ ehrenfest_steps e = c.

(** One step on the distribution [w], with the kernels [kv] and [kk]. *)
Definition gibbs_step (to_dual from_dual : @ndarray F -> @ndarray F)
    (kv kk w : @ndarray F) : @ndarray F :=
  zip_with f_mul
    (from_dual (zip_with f_mul (to_dual (zip_with f_mul w kv)) kk)) kv.

(** The object serves cached kernels of [N] entries, holds the
    distribution [w], and has the Ehrenfest flag off. *)
Definition holding (N : nat) (kv kk w : @ndarray F) (s : @state F) : Prop :=
  get_exp_v (self s) = Some CachedExpV
  /\ get_exp_k (self s) = Some CachedExpK
  /\ _expV (self s) = Some kv /\ _expK (self s) = Some kk
  /\ length kv = N /\ length kk = N
  /\ exists e, engine (self s) = Some e
               /\ wignerfunction e = w /\ isEhrenfest e = false.

(** The initial distribution of line 108,
    [lambda _, x, p: 0*x + 0*p + 1.], at one grid point. *)
Definition initial_distribution (x p : F) : F :=
  f_add (f_add (f_mul f_zero x) (f_mul f_zero p)) f_one.

End Derived.

Section RealDefinitions.
Local Open Scope R_scope.

(** The least entry of an array, as the minimum of its entries. *)
Definition least (a : list R) : R :=
  match a with
  | [] => 0
  | x :: xs => fold_right Rmin x xs
  end.

(** Following the words of the specification: with
    S = V(X - Theta/2) + V(X + Theta/2), the potential kernel is
    exp(-0.5 * dbeta * (S - min(S))) times the mask, entry by entry. *)
Definition spec_potential_kernel
    (step : R) (V0 : R -> R) (xs thetas mask : list R) : list R :=
  let sums := zip_with (fun x th => V0 (x - 1 / 2 * th) + V0 (x + 1 / 2 * th))
                       xs thetas in
  zip_with Rmult
    (map (fun s => exp (- (1 / 2) * step * (s - least sums))) sums) mask.

(** Following the words of the specification: with
    S = K(P + Lambda/2) + K(P - Lambda/2), the kinetic kernel is
    exp(-dbeta * (S - min(S))), with no mask. *)
Definition spec_kinetic_kernel
    (step : R) (K0 : R -> R) (ps lambdas : list R) : list R :=
  let sums := zip_with (fun p l => K0 (p + 1 / 2 * l) + K0 (p - 1 / 2 * l))
                       ps lambdas in
  map (fun s => exp (- step * (s - least sums))) sums.

(** All entries in (0, 1], and the entry 1 where the sum is least. *)
Definition unit_peaked (sums kernel : list R) : Prop :=
  (forall v, In v kernel -> 0 < v <= 1)
  /\ exists (i : nat) (s : R),
       sums !! i = Some s
       /\ (forall x, In x sums -> s <= x)
       /\ kernel !! i = Some 1.

(** The initial distribution of line 108. *)
Definition flat (x p : R) : R := 0 * x + 0 * p + 1.


(** The sums of lines 66 and 87 on a grid of one shape. *)
Definition potential_sums (e : @Engine R) : list R :=
  zip_with (potential_at (eval_at (V e) (t e))) (X e) (Theta e).

Definition kinetic_sums (e : @Engine R) : list R :=
  zip_with (kinetic_at (eval_at (K e) (t e))) (P e) (Lambda e).

(** The Hamiltonian of the example, lines 142 and 145:
    K = 0.5 * p ** 2 and V = 0.5 * omega ** 2 * x ** 2. *)
Definition oscillator_K : @callable R := Static (fun p => 1 / 2 * p ^ 2).
Definition oscillator_V (omega : R) : @callable R :=
  Static (fun x => 1 / 2 * omega ^ 2 * x ^ 2).

(** The derivatives the example supplies for the Ehrenfest theorems,
    lines 148 and 149: diff_K = p and diff_V = omega ** 2 * x. *)
Definition oscillator_diff_K : @callable R := Static (fun p => p).
Definition oscillator_diff_V (omega : R) : @callable R :=
  Static (fun x => omega ^ 2 * x).

End RealDefinitions.


(** An interpreter that has just built the dictionary [m] at address 1. *)
Definition boot {F : Type} (m : dict F) : @state F :=
  mkState {[1%positive := m]} [] blank.

(** The double nearest to 0.3. *)
Definition three_tenths : float := 0x1.3333333333333p-2%float.

(** The schedule block alone, on given kT and dbeta. *)
Definition run_schedule (m : dict float) : @state float * result unit :=
  (init_temperature 1%positive;; init_schedule 1%positive) (boot m).

(** A small parent for the examples: a three-point grid without shifts, a
    harmonic oscillator, and expectation values switched on, as the parent
    class leaves them. *)
Definition toy_engine (V0 K0 : @callable R) (step : R) : @Engine R :=
  mkEngine [-1; 0; 1]%R [-1; 0; 1]%R [0; 0; 0]%R [0; 0; 0]%R [1; 1; 1]%R
           0%R step V0 K0 true [0; 0; 0]%R 0.

Definition toy_parent (V0 K0 : @callable R) (m : dict R) : result (@Engine R) :=
  match m !! "dt" with
  | Some (VFloat q) => Ok (toy_engine V0 K0 q)
  | _ => Raise (KeyError "dt")
  end.

Definition harmonic : @callable R := Static (fun x => (x * x / 2)%R).

Definition driven : @callable R := TimeDependent (fun x time => (x * x / 2 + time * x)%R).

(** Keyword arguments for the examples: kT = 1, dbeta = 1/4, and a time
    step dt = 5 of the caller's own. *)
Definition toy_kwargs : dict R :=
  <["dt" := VFloat 5%R]>
    (<["dbeta" := VFloat (1 / 4)%R]> {["kT" := VFloat 1%R]}).

Definition toy_built (V0 K0 : @callable R) : @built R :=
  let e := set_isEhrenfest false (toy_engine V0 K0 (1 / 4)%R) in
  mkBuilt 1%R (1 / 4)%R 4 e
          (potential_kernel (1 / 4)%R e) (kinetic_kernel (1 / 4)%R e)
          (warning V0 warn_potential 0%R ++ warning K0 warn_kinetic 0%R)%list.

(** The same parent with the object's time set to [time]. *)
Definition toy_engine_at (time : R) (V0 K0 : @callable R) (step : R) : @Engine R :=
  mkEngine [-1; 0; 1]%R [-1; 0; 1]%R [0; 0; 0]%R [0; 0; 0]%R [1; 1; 1]%R
           time step V0 K0 true [0; 0; 0]%R 0.

Definition toy_parent_at (time : R) (V0 K0 : @callable R) (m : dict R) :
    result (@Engine R) :=
  match m !! "dt" with
  | Some (VFloat q) => Ok (toy_engine_at time V0 K0 q)
  | _ => Raise (KeyError "dt")
  end.

(** The toy construction, for the remaining examples. *)
Definition toy_out : @state R * result unit :=
  WignerBlochFFTW1D (toy_parent harmonic harmonic) 1%positive (boot toy_kwargs).

Definition toy_grid : @Engine R :=
  set_isEhrenfest false (toy_engine harmonic harmonic (1 / 4)%R).

(** The same construction in an interpreter that has printed before and
    holds the dictionary at another address. *)
Definition busy : @state R :=
  mkState {[7%positive := toy_kwargs]} [Printed "earlier output" 0%R] blank.

Definition toy_out_busy : @state R * result unit :=
  WignerBlochFFTW1D (toy_parent harmonic harmonic) 7%positive busy.

(** kT = 1 with an increment of 3, coarser than twice the range. *)
Definition coarse_kwargs : dict R :=
  <["dbeta" := VFloat 3%R]> {["kT" := VFloat 1%R]}.

(** kT = 1 with a negative increment. *)
Definition reversed_kwargs : dict R :=
  <["dt" := VFloat 5%R]>
    (<["dbeta" := VFloat (- (1 / 4))%R]> {["kT" := VFloat 1%R]}).

(** kT = 1 alone, and the same with the default increment and a time
    step written out. *)
Definition bare_kwargs : dict R := {["kT" := VFloat 1%R]}.
Definition spelled_kwargs : dict R :=
  <["dt" := VFloat 5%R]> (<["dbeta" := VFloat (1 / 100)%R]> bare_kwargs).

(** The temperature kT = 1/2, within the range the example draws from. *)
Definition demo_kwargs : dict R := {["kT" := VFloat (1 / 2)%R]}.


(** A function where a temperature is expected. *)
Definition callable_kwargs : dict R := {["kT" := VCallable harmonic]}.

(** An infinite temperature on binary64, and a parent with a one-point
    grid. *)
Definition hot_kwargs : dict float := {["kT" := VFloat infinity]}.
Definition point_engine : @Engine float :=
  mkEngine [0%float] [0%float] [0%float] [0%float] [1%float]
           0%float 0%float (Static (fun x => x)) (Static (fun x => x))
           true [0%float] 0.
Definition point_parent (m : dict float) : result (@Engine float) :=
  Ok point_engine.

(** kT = 1 on binary64 with an increment that is not a number. *)
Definition nan_kwargs : dict float :=
  <["dbeta" := VFloat nan]> {["kT" := VFloat 1%float]}.


(** * Properties *)

(** Unfolding the monad: one pass exposes the next statement to run. *)
Ltac run_step :=
  unfold mbind, M_bind, bind, result_bind, rbind, mret, M_ret, result_ret,
    ret, lift, raise, getattr, modify_self, try_except, dict_getitem,
    dict_read, dict_write, dict_update, print; cbn.
Ltac run := repeat progress run_step.

(** Case analysis on the next test or the next call that may raise. *)
Ltac branch :=
  match goal with
  | H : ?r = _ |- context [match ?r with Ok _ => _ | Raise _ => _ end] =>
      rewrite H; run
  | H : ?b = _ |- context [if ?b then _ else _] => rewrite H; run
  | |- context [match ?r with Ok _ => _ | Raise _ => _ end] =>
      lazymatch r with
      | context [match _ with Ok _ => _ | Raise _ => _ end] => fail
      | context [if _ then _ else _] => fail
      | _ => destruct r eqn:?; run
      end
  | |- context [if ?b then _ else _] =>
      lazymatch b with
      | context [match _ with Ok _ => _ | Raise _ => _ end] => fail
      | context [if _ then _ else _] => fail
      | _ => destruct b eqn:?; run
      end
  end.

Section Construction.
Context {F : Type} {FO : FloatOps F} {EO : ExpOps F}.
Variable parent_init : dict F -> result (@Engine F).

Abbreviation construct := (WignerBlochFFTW1D parent_init).

Lemma construct_entry (s : @state F) (params : loc) (m : dict F) :
  heap s !! params = Some m ->
  construct params s = __init__ parent_init (fresh (dom (heap s))) (entry s m).
Proof.
  intros Hm. unfold WignerBlochFFTW1D, dict_alloc. run.
  rewrite Hm. reflexivity.
Qed.

Lemma entry_kwargs (s : @state F) (m : dict F) :
  heap (entry s m) !! fresh (dom (heap s)) = Some m.
Proof. unfold entry. cbn. apply lookup_insert_eq. Qed.

Lemma entry_params (s : @state F) (params : loc) (m m' : dict F) :
  heap s !! params = Some m -> heap (entry s m') !! params = Some m.
Proof.
  intros Hm. unfold entry. cbn. rewrite lookup_insert_ne; [exact Hm|].
  intros <-. apply (is_fresh (dom (heap s))), elem_of_dom. eauto.
Qed.

Lemma construct_missing_kT (s : @state F) (params : loc) (m : dict F) :
  heap s !! params = Some m ->
  m !! "kT" = None ->
  construct params s = (entry s m, Raise (AttributeError no_temperature)).
Proof.
  intros Hm HkT. rewrite (construct_entry Hm).
  unfold __init__, init_temperature. run.
  rewrite lookup_insert_eq. run. rewrite HkT. run. reflexivity.
Qed.

(** C6: constructing without [kT] raises the configuration error
    [AttributeError("Temperature (kT) was not specified")]; at that point
    the object has no attribute at all, in particular neither kernel and
    no parent state, nothing has been printed and the caller's dictionary
    is as it was. *)
Theorem C6_missing_kT_raises_before_kernels
    (s : @state F) (params : loc) (m : dict F) :
  heap s !! params = Some m ->
  m !! "kT" = None ->
  let out := construct params s in
  out.2 = Raise (AttributeError no_temperature)
  /\ self out.1 = blank
  /\ _expV (self out.1) = None /\ _expK (self out.1) = None
  /\ engine (self out.1) = None
  /\ stdout out.1 = stdout s
  /\ heap out.1 !! params = Some m.
Proof.
  intros Hm HkT. cbv zeta. rewrite (construct_missing_kT Hm HkT). cbn.
  repeat split; try reflexivity.
  apply (entry_params m Hm).
Qed.

(** *** Lines 22-25 with [kT] supplied *)

Lemma init_temperature_ok (s : @state F) (kwargs : loc) (m : dict F) (v : pyval) :
  heap s !! kwargs = Some m ->
  m !! "kT" = Some v ->
  init_temperature kwargs s = (with_self s (set_kT v (self s)), Ok tt).
Proof.
  intros Hm Hv. unfold init_temperature. run. rewrite Hm. run.
  rewrite Hv. reflexivity.
Qed.

(** *** Line 45: a temperature that is not positive *)

Lemma init_schedule_unsupported (s : @state F) (kwargs : loc) (v : pyval) :
  kT (self s) = Some v ->
  py_gt_zero v = false ->
  init_schedule kwargs s = (s, Raise (TypeError not_callable)).
Proof.
  intros Hk Hv. unfold init_schedule. run. rewrite Hk. run.
  rewrite Hv. reflexivity.
Qed.

Lemma construct_unsupported (s : @state F) (params : loc) (m : dict F) (x : F) :
  heap s !! params = Some m ->
  m !! "kT" = Some (VFloat x) ->
  f_ltb f_zero x = false ->
  construct params s =
    (with_self (entry s m) (set_kT (VFloat x) blank),
     Raise (TypeError not_callable)).
Proof.
  intros Hm Hk Hx. rewrite (construct_entry Hm). unfold __init__.
  change (init_temperature ?k;; ?rest) with (bind (init_temperature k) (fun _ => rest)).
  unfold bind at 1.
  rewrite (init_temperature_ok (entry_kwargs s m) Hk).
  change (init_schedule ?k;; ?rest) with (bind (init_schedule k) (fun _ => rest)).
  unfold bind at 1.
  rewrite (@init_schedule_unsupported _ _ (VFloat x)); [reflexivity | reflexivity | exact Hx].
Qed.

(** *** Lines 27-42 with a positive temperature *)

Lemma init_schedule_resolved
    (s : @state F) (kwargs : loc) (m : dict F) (k d0 : F) :
  heap s !! kwargs = Some m ->
  kT (self s) = Some (VFloat k) ->
  f_ltb f_zero k = true ->
  initial_dbeta m = VFloat d0 ->
  match resolved_schedule k d0 with
  | Ok (q, n) =>
      init_schedule kwargs s = (with_self s (scheduled q n (self s)), Ok tt)
  | Raise e =>
      exists s', init_schedule kwargs s = (s', Raise e) /\ same_but_schedule s s'
  end.
Proof.
  intros Hm Hk Hpos Hd. unfold init_schedule, resolved_schedule.
  run. rewrite Hk. run. rewrite Hpos. run. rewrite Hm. run.
  unfold initial_dbeta in Hd.
  destruct (m !! "dbeta") as [v|]; simplify_eq; run; repeat branch;
    simplify_eq;
    first [ reflexivity
          | eexists; split; [reflexivity | repeat split] ].
Qed.

(** *** Lines 47-54 *)

Lemma init_parent_ok
    (s : @state F) (kwargs : loc) (m : dict F) (q : F) (e : Engine) :
  heap s !! kwargs = Some m ->
  dbeta (self s) = Some (VFloat q) ->
  parent_init (parent_kwargs q m) = Ok e ->
  init_parent parent_init kwargs s =
    (mkState (<[kwargs := parent_kwargs q m]> (heap s)) (stdout s)
             (set_engine (set_isEhrenfest false e) (self s)),
     Ok tt).
Proof.
  intros Hm Hq He. unfold init_parent. run. rewrite Hq. run.
  rewrite Hm. run. rewrite lookup_insert_eq. run.
  fold (parent_kwargs q m). rewrite He. run. reflexivity.
Qed.

(** *** Lines 65-100: the two kernels *)

Lemma init_expV_ok
    (s : @state F) (e : Engine) (q : F) (k : ndarray) (out : list printed) :
  engine (self s) = Some e ->
  dbeta (self s) = Some (VFloat q) ->
  expV_value q e = Ok (k, out) ->
  init_expV s =
    (mkState (heap s) (stdout s ++ out)
             (set_get_exp_v CachedExpV (set_expV k (self s))),
     Ok tt).
Proof.
  intros He Hq Hv. unfold init_expV. run. rewrite He. run.
  unfold expV_value, potential_values, raw_kernel in Hv. revert Hv. run.
  destruct (potential_sum e) as [a|[]] eqn:Hsum; run;
    repeat first [ rewrite Hq; run | rewrite He; run | branch ];
    try discriminate; intros [= <- <-]; rewrite ?app_nil_r; reflexivity.
Qed.

Lemma init_expK_ok
    (s : @state F) (e : Engine) (q : F) (k : ndarray) (out : list printed) :
  engine (self s) = Some e ->
  dbeta (self s) = Some (VFloat q) ->
  expK_value q e = Ok (k, out) ->
  init_expK s =
    (mkState (heap s) (stdout s ++ out)
             (set_get_exp_k CachedExpK (set_expK k (self s))),
     Ok tt).
Proof.
  intros He Hq Hv. unfold init_expK. run. rewrite He. run.
  unfold expK_value, kinetic_values, raw_kernel in Hv. revert Hv. run.
  destruct (kinetic_sum e) as [a|[]] eqn:Hsum; run;
    repeat first [ rewrite Hq; run | rewrite He; run | branch ];
    try discriminate; intros [= <- <-]; rewrite ?app_nil_r; reflexivity.
Qed.

(** *** Sequencing *)

Lemma seq_ok {A} (m1 : M unit) (m2 : M A) (s s1 : @state F) :
  m1 s = (s1, Ok tt) -> (m1;; m2) s = m2 s1.
Proof. intros H. unfold mbind, M_bind, bind. rewrite H. reflexivity. Qed.

Lemma seq_raise {A} (m1 : M unit) (m2 : M A) (s s1 : @state F) (e : exn) :
  m1 s = (s1, Raise e) -> (m1;; m2) s = (s1, Raise e).
Proof. intros H. unfold mbind, M_bind, bind. rewrite H. reflexivity. Qed.

(** *** The constructor as a function of its keyword arguments *)

Lemma init_schedule_total
    (s : @state F) (kwargs : loc) (m : dict F) (v : pyval) :
  heap s !! kwargs = Some m ->
  kT (self s) = Some v ->
  match schedule_value v m with
  | Ok (k, q, n) =>
      v = VFloat k
      /\ init_schedule kwargs s = (with_self s (scheduled q n (self s)), Ok tt)
  | Raise err =>
      exists s', init_schedule kwargs s = (s', Raise err) /\ same_but_schedule s s'
  end.
Proof.
  intros Hm Hk. unfold schedule_value.
  destruct (py_gt_zero v) eqn:Hpos.
  - destruct v as [k|c].
    + destruct (initial_dbeta m) as [d0|c] eqn:Hd.
      * pose proof (init_schedule_resolved Hm Hk Hpos Hd) as H.
        run. destruct (resolved_schedule k d0) as [[q n]|err]; run.
        -- split; [reflexivity | exact H].
        -- exact H.
      * unfold init_schedule. run. rewrite Hk. run. cbn in Hpos.
        rewrite Hpos. run. rewrite Hm. run. unfold initial_dbeta in Hd.
        destruct (m !! "dbeta") as [w|]; simplify_eq; run.
        eexists; split; [reflexivity | repeat split].
    + unfold init_schedule. run. rewrite Hk. run. rewrite Hm. run.
      destruct (m !! "dbeta") as [w|]; run;
        eexists; (split; [reflexivity | repeat split]).
  - rewrite (init_schedule_unsupported kwargs Hk Hpos).
    eexists; split; [reflexivity | repeat split].
Qed.

Lemma init_parent_total
    (s : @state F) (kwargs : loc) (m : dict F) (q : F) :
  heap s !! kwargs = Some m ->
  dbeta (self s) = Some (VFloat q) ->
  match parent_init (parent_kwargs q m) with
  | Ok e =>
      init_parent parent_init kwargs s =
        (mkState (<[kwargs := parent_kwargs q m]> (heap s)) (stdout s)
                 (set_engine (set_isEhrenfest false e) (self s)),
         Ok tt)
  | Raise err =>
      init_parent parent_init kwargs s =
        (mkState (<[kwargs := parent_kwargs q m]> (heap s)) (stdout s) (self s),
         Raise err)
  end.
Proof.
  intros Hm Hq.
  destruct (parent_init (parent_kwargs q m)) as [e|err] eqn:He.
  - exact (init_parent_ok Hm Hq He).
  - unfold init_parent. run. rewrite Hq. run. rewrite Hm. run.
    rewrite lookup_insert_eq. run. fold (parent_kwargs q m).
    rewrite He. run. reflexivity.
Qed.

Lemma init_expV_total (s : @state F) (e : Engine) (q : F) :
  engine (self s) = Some e ->
  dbeta (self s) = Some (VFloat q) ->
  match expV_value q e with
  | Ok (k, out) =>
      init_expV s =
        (mkState (heap s) (stdout s ++ out)
                 (set_get_exp_v CachedExpV (set_expV k (self s))),
         Ok tt)
  | Raise err =>
      exists s', init_expV s = (s', Raise err)
                 /\ heap s' = heap s /\ _expK (self s') = _expK (self s)
  end.
Proof.
  intros He Hq.
  destruct (expV_value q e) as [[k out]|err] eqn:Hv.
  - exact (init_expV_ok He Hq Hv).
  - unfold init_expV. run. rewrite He. run.
    unfold expV_value, potential_values, raw_kernel in Hv. revert Hv. run.
    destruct (potential_sum e) as [a|[]] eqn:Hsum; run;
      repeat first [ rewrite Hq; run | rewrite He; run | branch ];
      try discriminate; intros [= <-];
      eexists; (split; [reflexivity | split; reflexivity]).
Qed.

Lemma init_expK_total (s : @state F) (e : Engine) (q : F) :
  engine (self s) = Some e ->
  dbeta (self s) = Some (VFloat q) ->
  match expK_value q e with
  | Ok (k, out) =>
      init_expK s =
        (mkState (heap s) (stdout s ++ out)
                 (set_get_exp_k CachedExpK (set_expK k (self s))),
         Ok tt)
  | Raise err =>
      exists s', init_expK s = (s', Raise err) /\ heap s' = heap s
  end.
Proof.
  intros He Hq.
  destruct (expK_value q e) as [[k out]|err] eqn:Hv.
  - exact (init_expK_ok He Hq Hv).
  - unfold init_expK. run. rewrite He. run.
    unfold expK_value, kinetic_values, raw_kernel in Hv. revert Hv. run.
    destruct (kinetic_sum e) as [a|[]] eqn:Hsum; run;
      repeat first [ rewrite Hq; run | rewrite He; run | branch ];
      try discriminate; intros [= <-];
      eexists; (split; reflexivity).
Qed.

Lemma construct_total (s : @state F) (params : loc) (m : dict F) :
  heap s !! params = Some m ->
  match construct_value parent_init m with
  | Ok b =>
      construct params s =
        (mkState (<[fresh (dom (heap s)) := parent_kwargs (b_dbeta b) m]> (heap s))
                 (stdout s ++ b_out b)
                 (instance_of b),
         Ok tt)
  | Raise err =>
      exists s', construct params s = (s', Raise err)
                 /\ heap s' !! params = Some m
  end.
Proof.
  intros Hm. unfold construct_value. run.
  destruct (m !! "kT") as [v|] eqn:Hk; run.
  2:{ rewrite (construct_missing_kT Hm Hk). eexists.
      split; [reflexivity | apply (entry_params m Hm)]. }
  pose proof (@init_schedule_total
                (with_self (entry s m) (set_kT v (self (entry s m))))
                (fresh (dom (heap s))) m v (entry_kwargs s m) eq_refl) as Hs.
  rewrite (construct_entry Hm). unfold __init__.
  rewrite (seq_ok _ (init_temperature_ok (entry_kwargs s m) Hk)).
  destruct (schedule_value v m) as [[[k q] n]|err]; cbv beta iota.
  2:{ destruct Hs as (s1 & Hs & Hsame). rewrite (seq_raise _ Hs).
      eexists. split; [reflexivity|].
      destruct Hsame as (Hh & _). rewrite Hh. apply (entry_params m Hm). }
  destruct Hs as [-> Hs]. rewrite (seq_ok _ Hs). clear Hs.
  match goal with
  | |- context [init_parent _ _;; ?rest] =>
      pose proof (@init_parent_total
        (with_self (with_self (entry s m) (set_kT (VFloat k) (self (entry s m))))
           (scheduled q n (set_kT (VFloat k) (self (entry s m)))))
        (fresh (dom (heap s))) m q (entry_kwargs s m) eq_refl) as Hp
  end.
  destruct (parent_init (parent_kwargs q m)) as [e|err]; cbv beta iota.
  2:{ rewrite (seq_raise _ Hp). eexists. split; [reflexivity|].
      cbn. rewrite lookup_insert_ne; [|].
      - rewrite lookup_insert_ne; [exact Hm|].
        intros <-. apply (is_fresh (dom (heap s))), elem_of_dom. eauto.
      - intros <-. apply (is_fresh (dom (heap s))), elem_of_dom. eauto. }
  rewrite (seq_ok _ Hp). clear Hp.
  match goal with
  | |- context [(init_expV;; _) ?st] =>
      pose proof (@init_expV_total st (set_isEhrenfest false e) q eq_refl eq_refl) as Hv
  end.
  destruct (expV_value q (set_isEhrenfest false e)) as [[kv outv]|err]; cbv beta iota.
  2:{ destruct Hv as (s1 & Hv & Hh & _). rewrite (seq_raise _ Hv).
      eexists. split; [reflexivity|]. rewrite Hh. cbn.
      rewrite insert_insert_eq. rewrite lookup_insert_ne; [exact Hm|].
      intros <-. apply (is_fresh (dom (heap s))), elem_of_dom. eauto. }
  rewrite (seq_ok _ Hv). clear Hv.
  match goal with
  | |- context [init_expK ?st] =>
      pose proof (@init_expK_total st (set_isEhrenfest false e) q eq_refl eq_refl) as Hkk
  end.
  destruct (expK_value q (set_isEhrenfest false e)) as [[kk outk]|err]; cbv beta iota.
  2:{ destruct Hkk as (s1 & Hkk & Hh). rewrite Hkk.
      eexists. split; [reflexivity|]. rewrite Hh. cbn.
      rewrite insert_insert_eq. rewrite lookup_insert_ne; [exact Hm|].
      intros <-. apply (is_fresh (dom (heap s))), elem_of_dom. eauto. }
  rewrite Hkk. cbn. rewrite insert_insert_eq, <- app_assoc. reflexivity.
Qed.

End Construction.

(** ** The kernels on a grid of one shape *)

Section Kernels.
Context {F : Type} {FO : FloatOps F} {EO : ExpOps F}.

Lemma np_binop_same (op : F -> F -> F) (a b : @ndarray F) :
  length a = length b -> np_binop op a b = Ok (zip_with op a b).
Proof.
  intros Hlen. unfold np_binop.
  destruct a as [|x [|x' a]], b as [|y [|y' b]]; try discriminate; try reflexivity.
  cbn in Hlen. injection Hlen as Hlen.
  cbn [length]. rewrite Hlen, Nat.eqb_refl. reflexivity.
Qed.

Lemma np_inplace_same (op : F -> F -> F) (a b : @ndarray F) :
  length a = length b -> np_inplace op a b = Ok (zip_with op a b).
Proof.
  intros Hlen. unfold np_inplace.
  destruct b as [|y [|y' b]].
  - destruct a; [reflexivity | discriminate].
  - destruct a as [|x [|x' a]]; try discriminate. reflexivity.
  - rewrite Hlen, Nat.eqb_refl. reflexivity.
Qed.

Lemma np_min_nonempty (a : @ndarray F) :
  a <> [] -> np_min a = Ok (array_min a).
Proof. destruct a; [congruence | reflexivity]. Qed.

Lemma raw_kernel_nonempty (coef : F) (a : @ndarray F) :
  a <> [] -> raw_kernel coef a = Ok (weights coef a).
Proof.
  intros Ha. unfold raw_kernel. rewrite (np_min_nonempty Ha). cbn.
  unfold weights, np_exp, np_imul_scalar, np_isub_scalar.
  rewrite !map_map. reflexivity.
Qed.

Lemma zip_with_nonempty {A B C} (g : A -> B -> C) (l : list A) (k : list B) :
  length l = length k -> l <> [] -> zip_with g l k <> [].
Proof. destruct l, k; cbn; congruence. Qed.

(** The sum of an energy term at two shifted arguments, entry by entry. *)
Lemma shifted_entries (f h : F -> F) (g1 g2 : F -> F -> F) (a b : @ndarray F) :
  zip_with f_add (map f (zip_with g1 a (map h b)))
                 (map f (zip_with g2 a (map h b)))
  = zip_with (fun x y => f_add (f (g1 x (h y))) (f (g2 x (h y)))) a b.
Proof.
  revert b. induction a as [|x a IH]; intros [|y b]; cbn; try reflexivity.
  rewrite IH. reflexivity.
Qed.

Lemma shifted_lengths (f h : F -> F) (g1 g2 : F -> F -> F) (a b : @ndarray F) :
  length (map f (zip_with g1 a (map h b)))
  = length (map f (zip_with g2 a (map h b))).
Proof.
  revert b. induction a as [|x a IH]; intros [|y b]; cbn; try reflexivity.
  rewrite IH. reflexivity.
Qed.

Lemma potential_sum_same (e : @Engine F) (f : F -> F) :
  V e = Static f ->
  length (X e) = length (Theta e) ->
  potential_sum e = Ok (zip_with (potential_at f) (X e) (Theta e)).
Proof.
  intros HV Hlen. unfold potential_sum, np_scale. rewrite HV.
  rewrite !np_binop_same by (rewrite length_map; exact Hlen). cbn.
  rewrite np_binop_same by apply shifted_lengths.
  rewrite shifted_entries. reflexivity.
Qed.

Lemma potential_sum_at_same (e : @Engine F) (f : F -> F -> F) (time : F) :
  V e = TimeDependent f ->
  length (X e) = length (Theta e) ->
  potential_sum_at e time
  = Ok (zip_with (potential_at (fun x => f x time)) (X e) (Theta e)).
Proof.
  intros HV Hlen. unfold potential_sum_at, np_scale. rewrite HV.
  rewrite !np_binop_same by (rewrite length_map; exact Hlen). cbn.
  rewrite np_binop_same
    by apply (shifted_lengths (fun x => f x time)).
  rewrite (shifted_entries (fun x => f x time)). reflexivity.
Qed.

Lemma kinetic_sum_same (e : @Engine F) (f : F -> F) :
  K e = Static f ->
  length (P e) = length (Lambda e) ->
  kinetic_sum e = Ok (zip_with (kinetic_at f) (P e) (Lambda e)).
Proof.
  intros HK Hlen. unfold kinetic_sum, np_scale. rewrite HK.
  rewrite !np_binop_same by (rewrite length_map; exact Hlen). cbn.
  rewrite np_binop_same by apply shifted_lengths.
  rewrite shifted_entries. reflexivity.
Qed.

Lemma kinetic_sum_at_same (e : @Engine F) (f : F -> F -> F) (time : F) :
  K e = TimeDependent f ->
  length (P e) = length (Lambda e) ->
  kinetic_sum_at e time
  = Ok (zip_with (kinetic_at (fun x => f x time)) (P e) (Lambda e)).
Proof.
  intros HK Hlen. unfold kinetic_sum_at, np_scale. rewrite HK.
  rewrite !np_binop_same by (rewrite length_map; exact Hlen). cbn.
  rewrite np_binop_same
    by apply (shifted_lengths (fun x => f x time)).
  rewrite (shifted_entries (fun x => f x time)). reflexivity.
Qed.

(** A probing call of a time-dependent term fails with [TypeError] once
    its argument has been computed. *)
Lemma potential_sum_probe (e : @Engine F) (f : F -> F -> F) :
  V e = TimeDependent f ->
  length (X e) = length (Theta e) ->
  potential_sum e = Raise (TypeError bad_arity).
Proof.
  intros HV Hlen. unfold potential_sum, np_scale. rewrite HV.
  rewrite !np_binop_same by (rewrite length_map; exact Hlen). reflexivity.
Qed.

Lemma kinetic_sum_probe (e : @Engine F) (f : F -> F -> F) :
  K e = TimeDependent f ->
  length (P e) = length (Lambda e) ->
  kinetic_sum e = Raise (TypeError bad_arity).
Proof.
  intros HK Hlen. unfold kinetic_sum, np_scale. rewrite HK.
  rewrite !np_binop_same by (rewrite length_map; exact Hlen). reflexivity.
Qed.

(** The two sums on a grid of one shape, whatever the arity of the terms. *)
Lemma potential_values_same (e : @Engine F) :
  length (X e) = length (Theta e) ->
  potential_values e
  = Ok (zip_with (potential_at (eval_at (V e) (t e))) (X e) (Theta e),
        warning (V e) warn_potential (t e)).
Proof.
  intros Hlen. unfold potential_values, warning.
  destruct (V e) as [f|f] eqn:HV; cbn.
  - rewrite (potential_sum_same HV Hlen). reflexivity.
  - rewrite (potential_sum_probe HV Hlen).
    rewrite (potential_sum_at_same (t e) HV Hlen). reflexivity.
Qed.

Lemma kinetic_values_same (e : @Engine F) :
  length (P e) = length (Lambda e) ->
  kinetic_values e
  = Ok (zip_with (kinetic_at (eval_at (K e) (t e))) (P e) (Lambda e),
        warning (K e) warn_kinetic (t e)).
Proof.
  intros Hlen. unfold kinetic_values, warning.
  destruct (K e) as [f|f] eqn:HK; cbn.
  - rewrite (kinetic_sum_same HK Hlen). reflexivity.
  - rewrite (kinetic_sum_probe HK Hlen).
    rewrite (kinetic_sum_at_same (t e) HK Hlen). reflexivity.
Qed.

Lemma expV_value_same (q : F) (e : @Engine F) :
  well_shaped e ->
  expV_value q e
  = Ok (potential_kernel q e, warning (V e) warn_potential (t e)).
Proof.
  intros (HX & HT & HB & _ & _). unfold expV_value.
  rewrite (potential_values_same (e := e)) by congruence. cbn.
  rewrite raw_kernel_nonempty by (apply zip_with_nonempty; congruence). cbn.
  rewrite np_inplace_same.
  - reflexivity.
  - unfold weights. rewrite length_map, length_zip_with. lia.
Qed.

Lemma expK_value_same (q : F) (e : @Engine F) :
  well_shaped e ->
  expK_value q e
  = Ok (kinetic_kernel q e, warning (K e) warn_kinetic (t e)).
Proof.
  intros (_ & _ & _ & HP & HL). unfold expK_value.
  rewrite (kinetic_values_same (e := e)) by congruence. cbn.
  rewrite raw_kernel_nonempty by (apply zip_with_nonempty; congruence).
  reflexivity.
Qed.




End Kernels.

(** ** Completed constructions *)

Section Constructed.
Context {F : Type} {FO : FloatOps F} {EO : ExpOps F}.
Variable parent_init : dict F -> result (@Engine F).

Lemma construct_completed (s : @state F) (params : loc) (m : dict F) :
  heap s !! params = Some m ->
  (WignerBlochFFTW1D parent_init params s).2 = Ok tt ->
  exists b,
    construct_value parent_init m = Ok b
    /\ WignerBlochFFTW1D parent_init params s = (after_construction s m b, Ok tt).
Proof.
  intros Hm Hok. pose proof (construct_total parent_init Hm) as H.
  destruct (construct_value parent_init m) as [b|err].
  - exists b. split; [reflexivity | exact H].
  - destruct H as (s' & H & _). rewrite H in Hok. discriminate.
Qed.

Lemma construct_value_inv (m : dict F) (b : @built F) :
  construct_value parent_init m = Ok b ->
  exists (e : @Engine F) (outv outk : list (@printed F)),
    m !! "kT" = Some (VFloat (b_kT b))
    /\ schedule_value (VFloat (b_kT b)) m = Ok (b_kT b, b_dbeta b, b_steps b)
    /\ parent_init (parent_kwargs (b_dbeta b) m) = Ok e
    /\ b_engine b = set_isEhrenfest false e
    /\ expV_value (b_dbeta b) (b_engine b) = Ok (b_expV b, outv)
    /\ expK_value (b_dbeta b) (b_engine b) = Ok (b_expK b, outk)
    /\ b_out b = (outv ++ outk)%list.
Proof.
  unfold construct_value. run.
  destruct (m !! "kT") as [v|]; run; [|discriminate].
  destruct (schedule_value v m) as [[[k q] n]|] eqn:Hs; run; [|discriminate].
  assert (Hv : v = VFloat k).
  { unfold schedule_value in Hs. destruct (py_gt_zero v); [|discriminate].
    destruct v as [k'|]; [|discriminate].
    destruct (initial_dbeta m); [|discriminate].
    revert Hs. run. destruct (resolved_schedule k' x) as [[q' n']|]; run;
      [|discriminate]. intros [= -> _ _]. reflexivity. }
  subst v.
  destruct (parent_init (parent_kwargs q m)) as [e|] eqn:He; run; [|discriminate].
  destruct (expV_value q (set_isEhrenfest false e)) as [[kv outv]|] eqn:HV;
    run; [|discriminate].
  destruct (expK_value q (set_isEhrenfest false e)) as [[kk outk]|] eqn:HK;
    run; [|discriminate].
  intros [= <-]. cbn. exists e, outv, outk. repeat split; assumption.
Qed.

Lemma after_construction_params
    (s : @state F) (params : loc) (m : dict F) (b : @built F) :
  heap s !! params = Some m ->
  fresh (dom (heap s)) <> params
  /\ heap (after_construction s m b) !! params = Some m.
Proof.
  intros Hm.
  assert (Hfresh : fresh (dom (heap s)) <> params).
  { intros <-. apply (is_fresh (dom (heap s))), elem_of_dom. eauto. }
  split; [exact Hfresh|]. cbn. by simplify_map_eq.
Qed.

(** A construction whose schedule resolves and whose parent delivers a
    grid of one shape completes, whatever the arity of the energy terms. *)
Lemma construct_on_grid
    (s : @state F) (params : loc) (m : dict F) (k q : F) (n : Z)
    (e : @Engine F) :
  heap s !! params = Some m ->
  m !! "kT" = Some (VFloat k) ->
  schedule_value (VFloat k) m = Ok (k, q, n) ->
  parent_init (parent_kwargs q m) = Ok e ->
  well_shaped e ->
  WignerBlochFFTW1D parent_init params s =
    (after_construction s m
       (mkBuilt k q n (set_isEhrenfest false e)
          (potential_kernel q e) (kinetic_kernel q e)
          (warning (V e) warn_potential (t e)
           ++ warning (K e) warn_kinetic (t e))%list),
     Ok tt).
Proof.
  intros Hm Hk Hs He Hshape.
  pose proof (construct_total parent_init Hm) as H.
  unfold construct_value in H. rewrite Hk in H.
  cbn [mbind result_bind rbind] in H. rewrite Hs in H.
  cbn [mbind result_bind rbind] in H. rewrite He in H.
  cbn [mbind result_bind rbind] in H.
  assert (Hshape' : well_shaped (set_isEhrenfest false e)) by exact Hshape.
  rewrite (expV_value_same q Hshape') in H.
  rewrite (expK_value_same q Hshape') in H.
  exact H.
Qed.

(** C7: when the energy terms need the time as a second argument, the
    probing one-argument call fails with [TypeError], which lines 67 and 88
    catch: the construction completes all the same.  Each kernel is
    computed from the two-argument call at the object's time [t], and for
    each time-dependent term one line naming [t] is printed.  Stated for
    terms of either arity: [eval_at] is the term itself when it takes no
    time, and [warning] is empty then. *)
Theorem C7_time_dependent_terms_are_taken_at_t
    (s : @state F) (params : loc) (m : dict F) (k q : F) (n : Z)
    (e : @Engine F) :
  heap s !! params = Some m ->
  m !! "kT" = Some (VFloat k) ->
  schedule_value (VFloat k) m = Ok (k, q, n) ->
  parent_init (parent_kwargs q m) = Ok e ->
  well_shaped e ->
  let out := WignerBlochFFTW1D parent_init params s in
  out.2 = Ok tt
  /\ _expV (self out.1) = Some (potential_kernel q e)
  /\ _expK (self out.1) = Some (kinetic_kernel q e)
  /\ stdout out.1 = (stdout s ++ warning (V e) warn_potential (t e)
                              ++ warning (K e) warn_kinetic (t e))%list
  /\ (forall f, V e = TimeDependent f ->
       eval_at (V e) (t e) = (fun x => f x (t e))
       /\ In (Printed warn_potential (t e)) (stdout out.1))
  /\ (forall f, K e = TimeDependent f ->
       eval_at (K e) (t e) = (fun x => f x (t e))
       /\ In (Printed warn_kinetic (t e)) (stdout out.1)).
Proof.
  intros Hm Hk Hs He Hshape out. subst out.
  rewrite (construct_on_grid Hm Hk Hs He Hshape). cbn.
  split_and!; try reflexivity.
  - intros f Hf. rewrite Hf. split; [reflexivity|].
    apply in_or_app. right. apply in_or_app. left. left. reflexivity.
  - intros f Hf. rewrite Hf. split; [reflexivity|].
    apply in_or_app. right. apply in_or_app. right. left. reflexivity.
Qed.

(** C10: in a completed construction the parent constructor is called with
    keyword arguments in which [dt] and [dbeta] are the resolved increment,
    whatever [dt] the caller supplied, and every other entry is the
    caller's.  The update is made in the dictionary that [__init__] itself
    received for its keyword arguments; the caller's dictionary is a
    different object and is left as it was. *)
Theorem C10_dt_forced_in_the_own_dictionary
    (s : @state F) (params : loc) (m : dict F) :
  heap s !! params = Some m ->
  let out := WignerBlochFFTW1D parent_init params s in
  out.2 = Ok tt ->
  exists (q : F) (e : @Engine F),
    dbeta (self out.1) = Some (VFloat q)
    /\ parent_init (parent_kwargs q m) = Ok e
    /\ engine (self out.1) = Some (set_isEhrenfest false e)
    /\ parent_kwargs q m !! "dt" = Some (VFloat q)
    /\ parent_kwargs q m !! "dbeta" = Some (VFloat q)
    /\ (forall key, key <> "dt" -> key <> "dbeta" ->
         parent_kwargs q m !! key = m !! key)
    /\ heap out.1 !! fresh (dom (heap s)) = Some (parent_kwargs q m)
    /\ fresh (dom (heap s)) <> params
    /\ heap out.1 !! params = Some m.
Proof.
  intros Hm out Hok. subst out.
  destruct (construct_completed Hm Hok) as (b & Hb & Hrun).
  destruct (construct_value_inv Hb) as (e & outv & outk & _ & _ & He & Hbe & _).
  rewrite Hrun. cbn. exists (b_dbeta b), e.
  destruct (after_construction_params b Hm) as [Hfresh Hkeep].
  split_and!.
  - reflexivity.
  - exact He.
  - rewrite Hbe. reflexivity.
  - unfold parent_kwargs. by simplify_map_eq.
  - unfold parent_kwargs. by simplify_map_eq.
  - intros key H1 H2. unfold parent_kwargs. by simplify_map_eq.
  - by simplify_map_eq.
  - exact Hfresh.
  - exact Hkeep.
Qed.

(** Line 54: a completed construction leaves the Ehrenfest flag off. *)
Lemma constructed_quiet (s : @state F) (params : loc) (m : dict F) :
  heap s !! params = Some m ->
  let out := WignerBlochFFTW1D parent_init params s in
  out.2 = Ok tt ->
  exists e, engine (self out.1) = Some e /\ isEhrenfest e = false.
Proof.
  intros Hm out Hok. subst out.
  destruct (construct_completed Hm Hok) as (b & Hb & Hrun).
  destruct (construct_value_inv Hb) as (e & _ & _ & _ & _ & _ & Hbe & _).
  rewrite Hrun. cbn. exists (b_engine b). split; [reflexivity|].
  rewrite Hbe. reflexivity.
Qed.

End Constructed.

(** ** The kernels as a function of their inputs *)

Section Determinism.
Context {F : Type} {FO : FloatOps F} {EO : ExpOps F}.

Lemma np_binop_raise (op : F -> F -> F) (a b : @ndarray F) (err : exn) :
  np_binop op a b = Raise err -> err = ValueError bad_broadcast.
Proof.
  unfold np_binop.
  destruct a as [|x [|x' a]], b as [|y [|y' b]]; cbn; try discriminate;
    try (destruct (Nat.eqb _ _); try discriminate); congruence.
Qed.

(** A term of one argument is never probed in vain. *)
Lemma potential_values_static (e : @Engine F) (f : F -> F) :
  V e = Static f ->
  potential_values e = (a ← potential_sum e; Ok (a, [])).
Proof.
  intros HV. unfold potential_values.
  destruct (potential_sum e) as [a|err] eqn:Hsum; [reflexivity|].
  assert (err = ValueError bad_broadcast) as ->; [|reflexivity].
  revert Hsum. unfold potential_sum. rewrite HV. cbn [call1]. run.
  destruct (np_binop f_sub _ _) as [u|err1] eqn:H1; run.
  2:{ intros [= <-]. exact (np_binop_raise H1). }
  destruct (np_binop f_add (X e) _) as [w|err2] eqn:H2; run.
  2:{ intros [= <-]. exact (np_binop_raise H2). }
  intros H3. exact (np_binop_raise H3).
Qed.

Lemma kinetic_values_static (e : @Engine F) (f : F -> F) :
  K e = Static f ->
  kinetic_values e = (a ← kinetic_sum e; Ok (a, [])).
Proof.
  intros HK. unfold kinetic_values.
  destruct (kinetic_sum e) as [a|err] eqn:Hsum; [reflexivity|].
  assert (err = ValueError bad_broadcast) as ->; [|reflexivity].
  revert Hsum. unfold kinetic_sum. rewrite HK. cbn [call1]. run.
  destruct (np_binop f_add _ _) as [u|err1] eqn:H1; run.
  2:{ intros [= <-]. exact (np_binop_raise H1). }
  destruct (np_binop f_sub (P e) _) as [w|err2] eqn:H2; run.
  2:{ intros [= <-]. exact (np_binop_raise H2). }
  intros H3. exact (np_binop_raise H3).
Qed.

Lemma expV_value_ext (q : F) (e1 e2 : @Engine F) :
  X e1 = X e2 -> Theta e1 = Theta e2 -> V e1 = V e2 ->
  abs_boundary e1 = abs_boundary e2 ->
  same_time e1 e2 ->
  expV_value q e1 = expV_value q e2.
Proof.
  intros HX HT HV HB Ht. unfold expV_value. rewrite <- HB.
  assert (Hvals : potential_values e1 = potential_values e2);
    [|rewrite Hvals; reflexivity].
  assert (Hsum : potential_sum e1 = potential_sum e2)
    by (unfold potential_sum; rewrite HX, HT, HV; reflexivity).
  destruct Ht as [Ht|[Hstatic _]].
  - unfold potential_values, potential_sum_at.
    rewrite Hsum, HX, HT, HV, Ht. reflexivity.
  - destruct (V e1) as [f|f] eqn:HV1; [|discriminate].
    rewrite (potential_values_static HV1).
    rewrite (potential_values_static (e := e2) (f := f)) by congruence.
    rewrite Hsum. reflexivity.
Qed.

Lemma expK_value_ext (q : F) (e1 e2 : @Engine F) :
  P e1 = P e2 -> Lambda e1 = Lambda e2 -> K e1 = K e2 ->
  same_time e1 e2 ->
  expK_value q e1 = expK_value q e2.
Proof.
  intros HP HL HK Ht. unfold expK_value.
  assert (Hvals : kinetic_values e1 = kinetic_values e2);
    [|rewrite Hvals; reflexivity].
  assert (Hsum : kinetic_sum e1 = kinetic_sum e2)
    by (unfold kinetic_sum; rewrite HP, HL, HK; reflexivity).
  destruct Ht as [Ht|[_ Hstatic]].
  - unfold kinetic_values, kinetic_sum_at.
    rewrite Hsum, HP, HL, HK, Ht. reflexivity.
  - destruct (K e1) as [f|f] eqn:HK1; [|discriminate].
    rewrite (kinetic_values_static HK1).
    rewrite (kinetic_values_static (e := e2) (f := f)) by congruence.
    rewrite Hsum. reflexivity.
Qed.

Lemma schedule_value_ext (v : pyval) (m1 m2 : dict F) :
  m1 !! "dbeta" = m2 !! "dbeta" ->
  schedule_value v m1 = schedule_value v m2.
Proof.
  intros Hd. unfold schedule_value, initial_dbeta. rewrite Hd. reflexivity.
Qed.

Variable parent1 parent2 : dict F -> result (@Engine F).

(** C9: two completed constructions from the same kT and dbeta, whose
    grids, energy terms and absorbing boundary are the same, and whose
    time is the same whenever an energy term takes the time, both hold
    kernels, and the same ones: one potential kernel and one kinetic
    kernel are cached by both, and one schedule is resolved by both,
    whatever else differs (the interpreter state, the other keyword
    arguments, the rest of the parent state).  The time is an input of its
    own: lines 72 and 93 evaluate a time-dependent term at [self.t]. *)
Theorem C9_kernels_depend_on_their_inputs_only
    (s1 s2 : @state F) (p1 p2 : loc) (m1 m2 : dict F) :
  heap s1 !! p1 = Some m1 ->
  heap s2 !! p2 = Some m2 ->
  m1 !! "kT" = m2 !! "kT" ->
  m1 !! "dbeta" = m2 !! "dbeta" ->
  let out1 := WignerBlochFFTW1D parent1 p1 s1 in
  let out2 := WignerBlochFFTW1D parent2 p2 s2 in
  out1.2 = Ok tt ->
  out2.2 = Ok tt ->
  forall e1 e2 : @Engine F,
    engine (self out1.1) = Some e1 ->
    engine (self out2.1) = Some e2 ->
    X e1 = X e2 -> P e1 = P e2 ->
    Theta e1 = Theta e2 -> Lambda e1 = Lambda e2 ->
    V e1 = V e2 -> K e1 = K e2 ->
    abs_boundary e1 = abs_boundary e2 ->
    same_time e1 e2 ->
    exists (kv kk : @ndarray F) (q : F) (n : Z),
      _expV (self out1.1) = Some kv /\ _expV (self out2.1) = Some kv
      /\ _expK (self out1.1) = Some kk /\ _expK (self out2.1) = Some kk
      /\ dbeta (self out1.1) = Some (VFloat q)
      /\ dbeta (self out2.1) = Some (VFloat q)
      /\ num_beta_steps (self out1.1) = Some (NInt n)
      /\ num_beta_steps (self out2.1) = Some (NInt n).
Proof.
  intros Hm1 Hm2 HkT Hdb out1 out2 Hok1 Hok2 e1 e2. subst out1 out2.
  destruct (construct_completed Hm1 Hok1) as (b1 & Hb1 & Hrun1).
  destruct (construct_completed Hm2 Hok2) as (b2 & Hb2 & Hrun2).
  destruct (construct_value_inv Hb1)
    as (e01 & ov1 & ok1 & Hk1 & Hs1 & _ & _ & HV1 & HK1 & _).
  destruct (construct_value_inv Hb2)
    as (e02 & ov2 & ok2 & Hk2 & Hs2 & _ & _ & HV2 & HK2 & _).
  rewrite Hrun1, Hrun2. cbn.
  intros [= <-] [= <-] HX HP HT HL HV HK HB Ht.
  assert (Hk : b_kT b1 = b_kT b2) by congruence.
  assert (Hqn : b_dbeta b1 = b_dbeta b2 /\ b_steps b1 = b_steps b2).
  { rewrite (schedule_value_ext _ Hdb), Hk, Hs2 in Hs1.
    injection Hs1. auto. }
  destruct Hqn as [Hq Hn].
  rewrite Hq in HV1, HK1.
  rewrite (expV_value_ext _ HX HT HV HB Ht), HV2 in HV1.
  rewrite (expK_value_ext _ HP HL HK Ht), HK2 in HK1.
  injection HV1 as HV1 _. injection HK1 as HK1 _.
  exists (b_expV b1), (b_expK b1), (b_dbeta b1), (b_steps b1).
  rewrite HV1, HK1, Hq, Hn. split_and!; reflexivity.
Qed.

End Determinism.

(** ** The projection onto the Gibbs state *)

Section Gibbs.
Context {F : Type} {FO : FloatOps F} {EO : ExpOps F}.
Variable to_dual from_dual : @ndarray F -> @ndarray F.

Abbreviation step_once := (single_step to_dual from_dual).
Abbreviation run_steps := (steps to_dual from_dual).
Abbreviation gibbs := (get_gibbs_state to_dual from_dual).

(** *** The Ehrenfest flag *)

Lemma set_wignerfunction_quiet (f : F -> F -> F) (c : nat) (s : @state F) :
  quiet c s -> quiet c (set_wignerfunction f s).1.
Proof.
  intros (e & He & Hflag & Hc). unfold set_wignerfunction. run. rewrite He. run.
  destruct (np_binop f (X e) (P e)) as [w|err]; run.
  - eexists. split_and!; [reflexivity | exact Hflag | exact Hc].
  - exists e. split_and!; assumption.
Qed.

Lemma single_step_quiet (c : nat) (s : @state F) :
  quiet c s -> quiet c (step_once s).1.
Proof.
  intros (e & He & Hflag & Hc).
  assert (Hq : quiet c s) by (exists e; split_and!; assumption).
  unfold single_step, call_accessor. run. rewrite He. run.
  repeat (first
    [ match goal with
      | |- context [match ?o with Some _ => _ | None => _ end] =>
          lazymatch o with
          | context [match _ with _ => _ end] => fail
          | _ => destruct o eqn:?; run
          end
      | |- context [match ?a with CachedExpV => _ | CachedExpK => _ end] =>
          destruct a; run
      end
    | branch ]);
    try exact Hq.
  all: eexists; (split_and!; [reflexivity | exact Hflag | exact Hc]).
Qed.

Lemma steps_quiet (n c : nat) (s : @state F) :
  quiet c s -> quiet c (run_steps n s).1.
Proof.
  revert s. induction n as [|n IH]; intros s Hq; cbn.
  - exact Hq.
  - pose proof (single_step_quiet Hq) as H1.
    unfold mbind, M_bind, bind.
    destruct (step_once s) as [s1 [[]|err]]; cbn in *.
    + apply IH. exact H1.
    + exact H1.
Qed.

Lemma gibbs_quiet (c : nat) (s : @state F) :
  quiet c s -> quiet c (gibbs s).1.
Proof.
  intros Hq. unfold get_gibbs_state.
  pose proof (set_wignerfunction_quiet
                (fun x p => f_add (f_add (f_mul f_zero x) (f_mul f_zero p)) f_one)
                Hq) as H1.
  unfold mbind, M_bind, bind at 1.
  destruct (set_wignerfunction _ s) as [s1 [[]|err]]; cbn in *; [|exact H1].
  unfold bind at 1, getattr.
  destruct (num_beta_steps (self s1)) as [[x|k]|]; cbn; try exact H1.
  pose proof (steps_quiet (Z.to_nat k) H1) as H2.
  unfold mbind, M_bind, bind.
  destruct (run_steps (Z.to_nat k) s1) as [s2 [[]|err]]; cbn in *;
    [|exact H2].
  destruct H2 as (e & He & Hflag & Hc). unfold getattr, ret.
  rewrite He. cbn. exists e. split_and!; assumption.
Qed.

(** *** Steps that succeed *)

Section Shapes.
Hypothesis to_dual_length : forall a, length (to_dual a) = length a.
Hypothesis from_dual_length : forall a, length (from_dual a) = length a.

Lemma gibbs_step_length (kv kk w : @ndarray F) (N : nat) :
  length kv = N -> length kk = N -> length w = N ->
  length (gibbs_step to_dual from_dual kv kk w) = N.
Proof using to_dual_length from_dual_length.
  intros Hv Hk Hw. unfold gibbs_step.
  rewrite length_zip_with, from_dual_length, length_zip_with,
    to_dual_length, length_zip_with, Hv, Hk, Hw.
  rewrite !Nat.min_id. reflexivity.
Qed.

Lemma single_step_ok (N : nat) (kv kk w : @ndarray F) (s : @state F) :
  holding N kv kk w s -> length w = N ->
  exists s',
    step_once s = (s', Ok tt)
    /\ holding N kv kk (gibbs_step to_dual from_dual kv kk w) s'
    /\ num_beta_steps (self s') = num_beta_steps (self s).
Proof using to_dual_length from_dual_length.
  intros (Hgv & Hgk & Hv & Hk & Hlv & Hlk & e & He & Hw & Hflag) HN.
  subst w. unfold single_step, call_accessor. run.
  rewrite He. run. rewrite Hgv. run. rewrite Hv. run.
  rewrite np_inplace_same by congruence. run.
  rewrite Hgk. run. rewrite Hk. run.
  rewrite np_inplace_same
    by (rewrite to_dual_length, length_zip_with; lia). run.
  rewrite np_inplace_same
    by (rewrite from_dual_length, length_zip_with, to_dual_length,
          length_zip_with; lia). run.
  rewrite Hflag. eexists. split; [reflexivity|]. cbn.
  split; [|reflexivity].
  unfold holding. cbn. split_and!; try assumption.
  eexists. split_and!; [reflexivity | reflexivity | exact Hflag].
Qed.

Lemma steps_ok (n N : nat) (kv kk w : @ndarray F) (s : @state F) :
  holding N kv kk w s -> length w = N ->
  exists s',
    run_steps n s = (s', Ok tt)
    /\ holding N kv kk (Nat.iter n (gibbs_step to_dual from_dual kv kk) w) s'
    /\ num_beta_steps (self s') = num_beta_steps (self s).
Proof using to_dual_length from_dual_length.
  revert w s. induction n as [|n IH]; intros w s Hs HN.
  - exists s. split_and!; [reflexivity | exact Hs | reflexivity].
  - destruct (single_step_ok Hs HN) as (s1 & Hstep & Hs1 & Hn1).
    pose proof Hs as (_ & _ & _ & _ & Hlv & Hlk & _).
    destruct (IH _ _ Hs1 (gibbs_step_length Hlv Hlk HN))
      as (s2 & Hrest & Hs2 & Hn2).
    exists s2. split_and!.
    + cbn. rewrite (seq_ok _ Hstep). exact Hrest.
    + rewrite Nat.iter_succ_r. exact Hs2.
    + congruence.
Qed.

End Shapes.

(** *** After a completed construction *)

Variable parent_init : dict F -> result (@Engine F).

(** C8: a completed construction leaves the Ehrenfest flag off (line 54
    runs after the parent constructor), and nothing in this class turns
    it on again: it is still off after any number of propagation steps and
    after [get_gibbs_state], also when those fail, and no step has recorded
    expectation values. *)
Theorem C8_ehrenfest_bookkeeping_stays_off
    (s : @state F) (params : loc) (m : dict F) :
  heap s !! params = Some m ->
  let out := WignerBlochFFTW1D parent_init params s in
  out.2 = Ok tt ->
  exists e,
    engine (self out.1) = Some e
    /\ isEhrenfest e = false
    /\ (forall n, quiet (ehrenfest_steps e) (run_steps n out.1).1)
    /\ quiet (ehrenfest_steps e) (gibbs out.1).1.
Proof.
  intros Hm out Hok.
  destruct (constructed_quiet (parent_init := parent_init) Hm Hok)
    as (e & He & Hflag).
  fold out in He.
  assert (Hq : quiet (ehrenfest_steps e) out.1)
    by (exists e; split_and!; [exact He | exact Hflag | reflexivity]).
  exists e. split_and!.
  - exact He.
  - exact Hflag.
  - intros n. apply steps_quiet. exact Hq.
  - apply gibbs_quiet. exact Hq.
Qed.

End Gibbs.

(** ** The temperature schedule in exact arithmetic *)

Section RealSchedule.
Local Open Scope R_scope.

Lemma Rltb_true (a b : R) : Rltb a b = true <-> a < b.
Proof. unfold Rltb. destruct (Rlt_dec a b); split; intros; congruence || lra. Qed.

Lemma Rltb_false (a b : R) : Rltb a b = false <-> b <= a.
Proof. unfold Rltb. destruct (Rlt_dec a b); split; intros; congruence || lra. Qed.

Lemma Rleb_true (a b : R) : Rleb a b = true <-> a <= b.
Proof. unfold Rleb. destruct (Rle_dec a b); split; intros; congruence || lra. Qed.

Lemma Rleb_false (a b : R) : Rleb a b = false <-> b < a.
Proof. unfold Rleb. destruct (Rle_dec a b); split; intros; congruence || lra. Qed.

Lemma Reqb_true (a b : R) : Reqb a b = true <-> a = b.
Proof. unfold Reqb. destruct (Req_dec_T a b); split; intros; congruence. Qed.

Lemma Reqb_false (a b : R) : Reqb a b = false <-> a <> b.
Proof. unfold Reqb. destruct (Req_dec_T a b); split; intros; congruence. Qed.

Lemma Int_part_IZR (z : Z) : Int_part (IZR z) = z.
Proof. symmetry. apply Int_part_spec. lra. Qed.

Lemma Rtrunc_IZR (z : Z) : Rtrunc (IZR z) = z.
Proof.
  unfold Rtrunc. destruct (Rle_dec 0 (IZR z)).
  - apply Int_part_IZR.
  - rewrite <- opp_IZR, Int_part_IZR. lia.
Qed.

Lemma Int_part_nonneg (x : R) : 0 <= x -> (0 <= Int_part x)%Z.
Proof.
  intros Hx. destruct (base_Int_part x) as [_ Hlt].
  assert (H : -1 < IZR (Int_part x)) by lra.
  apply lt_IZR in H. lia.
Qed.

(** [round] of a positive real is an integer within 1/2 of it: at least 1
    from 1/2 on, and 0 below. *)
Lemma py_round_pos (x : R) :
  0 < x ->
  exists z : Z,
    py_round x = IZR z
    /\ (0 <= z)%Z
    /\ (1 / 2 <= x -> (1 <= z)%Z)
    /\ (x < 1 / 2 -> z = 0%Z)
    /\ -(1 / 2) < IZR z - x <= 1 / 2.
Proof.
  intros Hx. unfold py_round. cbn.
  rewrite (Rabs_right x) by lra.
  destruct (base_Int_part x) as [Hlo Hhi].
  pose proof (Int_part_nonneg (x := x) ltac:(lra)) as Hz.
  assert (Hneg : Rltb x 0 = false) by (apply Rltb_false; lra).
  rewrite Hneg.
  destruct (Rleb (1 / 2) (x - IZR (Int_part x))) eqn:Hhalf.
  - apply Rleb_true in Hhalf. exists (Int_part x + 1)%Z.
    rewrite plus_IZR. repeat split; try lia; try lra.
    intros Hsmall. exfalso.
    assert (H0 : IZR 0 <= IZR (Int_part x)) by (apply IZR_le; lia).
    lra.
  - apply Rleb_false in Hhalf. exists (Int_part x).
    repeat split; try lia; try lra.
    + intros Hbig.
      assert (H0 : 0 < IZR (Int_part x)) by lra.
      apply lt_IZR in H0. lia.
    + intros Hsmall.
      assert (H1 : IZR (Int_part x) < 1) by lra.
      apply lt_IZR in H1. lia.
Qed.



(** [round] leaves an integer as it is. *)
Lemma py_round_IZR (z : Z) : (1 <= z)%Z -> py_round (IZR z) = IZR z.
Proof.
  intros Hz. assert (HzR : 1 <= IZR z) by (apply IZR_le in Hz; exact Hz).
  destruct (py_round_pos (x := IZR z) ltac:(lra))
    as (z' & Hround & _ & _ & _ & Hnear).
  rewrite Hround. f_equal.
  rewrite <- minus_IZR in Hnear. destruct Hnear as [Hlo Hhi].
  assert (H1 : IZR (-1) < IZR (z' - z)) by lra.
  assert (H2 : IZR (z' - z) < IZR 1) by lra.
  apply lt_IZR in H1. apply lt_IZR in H2. lia.
Qed.

(** When 1/(kT*dbeta) is an integer the requested increment is kept. *)
Lemma resolved_schedule_integral (k d : R) (z : Z) :
  0 < k -> 0 < d -> (1 <= z)%Z -> 1 / (k * d) = IZR z ->
  resolved_schedule k d = Ok (d, z).
Proof.
  intros Hk Hd Hz Hraw.
  assert (Hprod : k * d <> 0) by (apply Rmult_integral_contrapositive; lra).
  unfold resolved_schedule, py_div, py_int. run.
  assert (Hnz : Reqb (k * d) 0 = false) by (apply Reqb_false; exact Hprod).
  rewrite Hnz. run. rewrite Hraw, (py_round_IZR Hz).
  assert (Heq : Reqb (IZR z) (IZR z) = true) by (apply Reqb_true; reflexivity).
  rewrite Heq. run. rewrite Rtrunc_IZR. reflexivity.
Qed.

End RealSchedule.

(** ** The kernels in exact arithmetic *)

Section RealKernels.
Local Open Scope R_scope.

Lemma fold_right_Rmin_shift (a y : R) (xs : list R) :
  fold_right Rmin (Rmin a y) xs = Rmin y (fold_right Rmin a xs).
Proof.
  induction xs as [|x xs IH]; cbn.
  - apply Rmin_comm.
  - rewrite IH, !Rmin_assoc, (Rmin_comm x y). reflexivity.
Qed.

Lemma Rltb_pick (m y : R) : (if Rltb y m then y else m) = Rmin m y.
Proof.
  unfold Rltb, Rmin. destruct (Rlt_dec y m), (Rle_dec m y); lra.
Qed.

Lemma array_min_least (a : list R) : array_min a = least a.
Proof.
  destruct a as [|x xs]; [reflexivity|]. cbn.
  revert x. induction xs as [|y xs IH]; intros x; cbn; [reflexivity|].
  rewrite IH, Rltb_pick. apply fold_right_Rmin_shift.
Qed.

Lemma fold_right_Rmin_le (x : R) (xs : list R) :
  fold_right Rmin x xs <= x /\ forall y, In y xs -> fold_right Rmin x xs <= y.
Proof.
  induction xs as [|z xs [IHx IHy]]; cbn.
  - split; [lra | intros y []].
  - split.
    + pose proof (Rmin_r z (fold_right Rmin x xs)). lra.
    + intros y [<-|Hy].
      * apply Rmin_l.
      * pose proof (Rmin_r z (fold_right Rmin x xs)). specialize (IHy y Hy). lra.
Qed.

Lemma least_le (a : list R) (y : R) : In y a -> least a <= y.
Proof.
  destruct a as [|x xs]; [intros []|]. cbn.
  destruct (fold_right_Rmin_le x xs) as [Hx Hy].
  intros [<-|H]; [exact Hx | exact (Hy y H)].
Qed.

Lemma fold_right_Rmin_in (x : R) (xs : list R) :
  In (fold_right Rmin x xs) (x :: xs).
Proof.
  induction xs as [|z xs IH]; cbn in *.
  - left. reflexivity.
  - destruct (Rle_dec z (fold_right Rmin x xs)).
    + rewrite Rmin_left by assumption. right. left. reflexivity.
    + rewrite Rmin_right by lra.
      destruct IH as [H|H]; [left; exact H | right; right; exact H].
Qed.

Lemma least_in (a : list R) : a <> [] -> In (least a) a.
Proof. destruct a as [|x xs]; [congruence|]. intros _. apply fold_right_Rmin_in. Qed.

Lemma potential_kernel_spec (q : R) (e : @Engine R) :
  potential_kernel q e
  = spec_potential_kernel q (eval_at (V e) (t e)) (X e) (Theta e) (abs_boundary e).
Proof.
  unfold potential_kernel, spec_potential_kernel, weights.
  rewrite array_min_least. cbv zeta. f_equal.
  apply map_ext. intros s. cbn. f_equal. unfold potential_at. cbn. ring.
Qed.

Lemma kinetic_kernel_spec (q : R) (e : @Engine R) :
  kinetic_kernel q e
  = spec_kinetic_kernel q (eval_at (K e) (t e)) (P e) (Lambda e).
Proof.
  unfold kinetic_kernel, spec_kinetic_kernel, weights.
  rewrite array_min_least. cbv zeta.
  apply map_ext. intros s. cbn. f_equal. unfold kinetic_at. cbn. ring.
Qed.

Lemma exp_nonpos (x : R) : x <= 0 -> 0 < exp x <= 1.
Proof.
  intros Hx. split; [apply exp_pos|].
  destruct (Req_dec_T x 0) as [->|Hne].
  - rewrite exp_0. lra.
  - rewrite <- exp_0. left. apply exp_increasing. lra.
Qed.

Lemma weights_unit_peaked (coef : R) (a : list R) :
  coef < 0 -> a <> [] -> unit_peaked a (weights coef a).
Proof.
  intros Hc Ha. unfold unit_peaked, weights. rewrite array_min_least. split.
  - intros v Hv. apply in_map_iff in Hv as (x & <- & Hx).
    apply exp_nonpos. cbn. pose proof (least_le Hx). nra.
  - pose proof (least_in Ha) as Hin.
    apply list_elem_of_In, list_elem_of_lookup in Hin as [i Hi].
    exists i, (least a). split_and!.
    + exact Hi.
    + intros x Hx. apply (least_le Hx).
    + rewrite list_lookup_fmap, Hi. cbn. f_equal.
      replace ((least a - least a) * coef) with 0 by ring. apply exp_0.
Qed.

End RealKernels.

(** ** Running the constructor on binary64 *)

Section Binary64Runs.
Import Binary64.
Context {EO : ExpOps float}.
Variable parent_init : dict float -> result (@Engine float).

(** kT = 1, dbeta = 0.01: one hundred steps, the increment kept. *)
Example schedule_kT_1 :
  let out := run_schedule {["kT" := VFloat 1%float]} in
  out.2 = Ok tt
  /\ num_beta_steps (self out.1) = Some (NInt 100)
  /\ dbeta (self out.1) = Some (VFloat f_centi).
Proof. vm_compute. repeat split. Qed.

(** kT = 0.3, dbeta = 0.01: 333 steps and an adjusted increment; in
    binary64 the product 333 * dbeta * kT is 1 only up to rounding. *)
Example schedule_kT_03 :
  let out := run_schedule {["kT" := VFloat three_tenths]} in
  out.2 = Ok tt
  /\ num_beta_steps (self out.1) = Some (NInt 333)
  /\ match dbeta (self out.1) with
     | Some (VFloat q) =>
         PrimFloat.eqb (333 * q * three_tenths)%float 1%float = false
         /\ PrimFloat.eqb (333 * q * three_tenths)%float
                          0x1.0000000000001p+0%float = true
     | _ => False
     end.
Proof. vm_compute. repeat split. Qed.

(** C1: with kT = 1000 and the default increment 0.01 the quotient
    1/(kT*dbeta) is 0.1, [round] makes it 0.0, and line 40 divides by
    kT * 0.0: the constructor raises [ZeroDivisionError] instead of
    resolving a schedule.  At that point [num_beta_steps] holds the float
    0.0, [dbeta] is still the default, and neither the parent state nor a
    kernel exists. *)
Theorem C1_coarse_increment_divides_by_zero :
  let out := WignerBlochFFTW1D parent_init 1%positive
               (boot {["kT" := VFloat 1000%float]}) in
  out.2 = Raise (ZeroDivisionError float_div_zero)
  /\ num_beta_steps (self out.1) = Some (NFloat 0%float)
  /\ dbeta (self out.1) = Some (VFloat f_centi)
  /\ engine (self out.1) = None
  /\ _expV (self out.1) = None /\ _expK (self out.1) = None.
Proof. vm_compute. repeat split. Qed.

(** The same with inputs binary64 represents exactly: kT = 4, dbeta = 1. *)
Example coarse_increment_exact_inputs :
  (WignerBlochFFTW1D parent_init 1%positive
     (boot (<["dbeta" := VFloat 1%float]> {["kT" := VFloat 4%float]}))).2
  = Raise (ZeroDivisionError float_div_zero).
Proof. vm_compute. reflexivity. Qed.

(** kT = 0 takes the [else] branch of line 44, where calling the constant
    [NotImplemented] raises [TypeError]. *)
Example zero_temperature_binary64 :
  (WignerBlochFFTW1D parent_init 1%positive
     (boot {["kT" := VFloat 0%float]})).2
  = Raise (TypeError not_callable).
Proof. vm_compute. reflexivity. Qed.

End Binary64Runs.

(** ** The constructor in exact arithmetic *)

(** *** The toy construction *)

Lemma toy_well_shaped (V0 K0 : @callable R) (step : R) :
  well_shaped (set_isEhrenfest false (toy_engine V0 K0 step)).
Proof. unfold well_shaped. cbn. split_and!; congruence. Qed.

Lemma toy_schedule :
  schedule_value (VFloat 1%R) toy_kwargs = Ok (1%R, (1 / 4)%R, 4).
Proof.
  unfold schedule_value. cbn [py_gt_zero f_ltb f_zero real_ops].
  rewrite (proj2 (Rltb_true 0 1)) by lra.
  change (initial_dbeta toy_kwargs) with (@VFloat R (1 / 4)%R).
  cbv beta iota.
  rewrite (@resolved_schedule_integral 1 (1 / 4) 4); try lra; try lia.
  reflexivity.
Qed.

Lemma toy_value (V0 K0 : @callable R) :
  construct_value (toy_parent V0 K0) toy_kwargs = Ok (toy_built V0 K0).
Proof.
  unfold construct_value.
  change (toy_kwargs !! "kT") with (Some (@VFloat R 1%R)).
  cbn [mbind result_bind rbind]. rewrite toy_schedule.
  cbn [mbind result_bind rbind].
  change (toy_parent V0 K0 (parent_kwargs (1 / 4)%R toy_kwargs))
    with (Ok (toy_engine V0 K0 (1 / 4)%R)).
  cbn [mbind result_bind rbind].
  rewrite (expV_value_same _ (toy_well_shaped V0 K0 _)).
  rewrite (expK_value_same _ (toy_well_shaped V0 K0 _)).
  reflexivity.
Qed.

(** The toy construction completes. *)
Lemma toy_constructs (V0 K0 : @callable R) :
  WignerBlochFFTW1D (toy_parent V0 K0) 1%positive (boot toy_kwargs)
  = (after_construction (boot toy_kwargs) toy_kwargs (toy_built V0 K0), Ok tt).
Proof.
  pose proof (@construct_total R _ _ (toy_parent V0 K0)
                (boot toy_kwargs) 1%positive toy_kwargs eq_refl) as H.
  rewrite toy_value in H. exact H.
Qed.

Section RealConstruction.
Local Open Scope R_scope.
Variable parent_init : dict R -> result (@Engine R).

(** C5: with a temperature kT <= 0 the constructor takes the [else] branch
    of line 44.  There the expression [NotImplemented("...")] calls a
    constant that is not callable, so what is raised is [TypeError], not an
    error that names the unsupported ground state.  The failure is fatal
    and precedes the parent constructor and both kernels. *)
Theorem C5_nonpositive_kT_raises_TypeError
    (s : @state R) (params : loc) (m : dict R) (x : R) :
  heap s !! params = Some m ->
  m !! "kT" = Some (VFloat x) ->
  x <= 0 ->
  let out := WignerBlochFFTW1D parent_init params s in
  out.2 = Raise (TypeError not_callable)
  /\ engine (self out.1) = None
  /\ _expV (self out.1) = None /\ _expK (self out.1) = None
  /\ get_exp_v (self out.1) = None /\ get_exp_k (self out.1) = None
  /\ stdout out.1 = stdout s.
Proof.
  intros Hm Hk Hx. cbv zeta.
  rewrite (@construct_unsupported R _ _ parent_init s params m x Hm Hk).
  - repeat split.
  - apply Rltb_false. exact Hx.
Qed.


(** C2: in a completed construction over a grid of one shape the cached
    kernels are the ones the specification writes down:
    exp(-0.5 * dbeta * (S_V - min S_V)) times the absorbing boundary for the
    potential, and exp(-dbeta * (S_K - min S_K)), without mask, for the
    kinetic energy; the energy terms are taken at the object's time when
    they depend on time. *)
Theorem C2_kernels_follow_the_specified_formulas
    (s : @state R) (params : loc) (m : dict R) :
  heap s !! params = Some m ->
  let out := WignerBlochFFTW1D parent_init params s in
  out.2 = Ok tt ->
  forall (e : @Engine R) (q : R),
    engine (self out.1) = Some e ->
    dbeta (self out.1) = Some (VFloat q) ->
    well_shaped e ->
    _expV (self out.1)
    = Some (spec_potential_kernel q (eval_at (V e) (t e))
              (X e) (Theta e) (abs_boundary e))
    /\ _expK (self out.1)
       = Some (spec_kinetic_kernel q (eval_at (K e) (t e)) (P e) (Lambda e)).
Proof.
  intros Hm out Hok e q. subst out.
  destruct (construct_completed Hm Hok) as (b & Hb & Hrun).
  destruct (construct_value_inv Hb)
    as (e0 & outv & outk & _ & _ & _ & _ & HV & HK & _).
  rewrite Hrun. cbn. intros [= <-] [= <-] Hshape.
  rewrite (expV_value_same _ Hshape) in HV.
  rewrite (expK_value_same _ Hshape) in HK.
  injection HV as <- _. injection HK as <- _.
  rewrite potential_kernel_spec, kinetic_kernel_spec. split; reflexivity.
Qed.


End RealConstruction.

(** ** The Gibbs state in exact arithmetic *)

Section RealGibbs.
Local Open Scope R_scope.
Variable parent_init : dict R -> result (@Engine R).
Variable to_dual from_dual : @ndarray R -> @ndarray R.
Hypothesis to_dual_length : forall a, length (to_dual a) = length a.
Hypothesis from_dual_length : forall a, length (from_dual a) = length a.

Lemma zip_with_flat (a b : list R) :
  length a = length b -> zip_with flat a b = repeat 1 (length a).
Proof.
  revert b. induction a as [|x a IH]; intros [|y b] Hlen; cbn in *;
    try discriminate; [reflexivity|].
  rewrite IH by congruence. f_equal. unfold flat. ring.
Qed.

Lemma set_wignerfunction_flat
    (N : nat) (kv kk w : list R) (s : @state R) (e : @Engine R) :
  holding N kv kk w s ->
  engine (self s) = Some e ->
  length (X e) = N -> length (P e) = N ->
  exists s',
    set_wignerfunction flat s = (s', Ok tt)
    /\ holding N kv kk (repeat 1 N) s'
    /\ num_beta_steps (self s') = num_beta_steps (self s).
Proof.
  intros (Hgv & Hgk & Hv & Hk & Hlv & Hlk & e' & He' & Hw & Hflag) He HX HP.
  assert (e' = e) as -> by congruence.
  unfold set_wignerfunction. run. rewrite He. run.
  rewrite np_binop_same by congruence. run.
  eexists. split; [reflexivity|]. cbn. split; [|reflexivity].
  unfold holding. cbn. split_and!; try assumption.
  eexists. split_and!; [reflexivity | | exact Hflag].
  cbn. rewrite zip_with_flat by congruence. rewrite HX. reflexivity.
Qed.

(** C4: on a constructed object over a grid of one shape,
    [get_gibbs_state] replaces the distribution by the constant 1 on every
    grid point, runs exactly [num_beta_steps] split-operator steps from
    there, and returns the array it leaves as the object's distribution.
    The steps are those of the parent class, as the specification
    describes them, with transforms that keep the shape. *)
Theorem C4_gibbs_state_is_the_flat_distribution_propagated
    (s : @state R) (params : loc) (m : dict R) :
  heap s !! params = Some m ->
  let out := WignerBlochFFTW1D parent_init params s in
  out.2 = Ok tt ->
  forall e : @Engine R,
    engine (self out.1) = Some e ->
    well_shaped e ->
    length (P e) = length (X e) ->
    exists (n : Z) (kv kk : list R) (s1 : @state R),
      num_beta_steps (self out.1) = Some (NInt n)
      /\ _expV (self out.1) = Some kv /\ _expK (self out.1) = Some kk
      /\ set_wignerfunction flat out.1 = (s1, Ok tt)
      /\ (exists e1, engine (self s1) = Some e1
                     /\ wignerfunction e1 = repeat 1 (length (X e)))
      /\ let w := Nat.iter (Z.to_nat n) (gibbs_step to_dual from_dual kv kk)
                           (repeat 1 (length (X e))) in
         exists s2 e2,
           steps to_dual from_dual (Z.to_nat n) s1 = (s2, Ok tt)
           /\ get_gibbs_state to_dual from_dual out.1 = (s2, Ok w)
           /\ engine (self s2) = Some e2
           /\ wignerfunction e2 = w.
Proof using to_dual_length from_dual_length.
  intros Hm out Hok e. subst out.
  destruct (construct_completed Hm Hok) as (b & Hb & Hrun).
  destruct (construct_value_inv Hb)
    as (e0 & outv & outk & _ & _ & _ & Hbe & HV & HK & _).
  rewrite Hrun. cbn [fst snd]. cbn [after_construction self instance_of engine].
  intros [= <-] Hshape HPX.
  rewrite (expV_value_same _ Hshape) in HV.
  rewrite (expK_value_same _ Hshape) in HK.
  injection HV as HV _. injection HK as HK _.
  destruct Hshape as (HX & HT & HB & HP & HL).
  set (N := length (X (b_engine b))).
  set (s0 := after_construction s m b).
  assert (Hhold : holding N (b_expV b) (b_expK b) (wignerfunction (b_engine b)) s0).
  { unfold holding. cbn. split_and!; try reflexivity.
    - rewrite <- HV. unfold potential_kernel, weights.
      rewrite length_zip_with, length_map, length_zip_with, HT, HB.
      fold N. rewrite !Nat.min_id. reflexivity.
    - rewrite <- HK. unfold kinetic_kernel, weights.
      rewrite length_map, length_zip_with, HL, HPX. fold N.
      rewrite Nat.min_id. reflexivity.
    - exists (b_engine b). split_and!; try reflexivity.
      rewrite Hbe. reflexivity. }
  destruct (@set_wignerfunction_flat N _ _ _ s0 (b_engine b) Hhold eq_refl
              eq_refl HPX) as (s1 & Hset & Hs1 & Hn1).
  assert (HN : length (repeat (1 : R) N) = N) by apply repeat_length.
  destruct (steps_ok to_dual_length from_dual_length (Z.to_nat (b_steps b))
              Hs1 HN) as (s2 & Hsteps & Hs2 & Hn2).
  exists (b_steps b), (b_expV b), (b_expK b), s1.
  split_and!; try reflexivity.
  - exact Hset.
  - destruct Hs1 as (_ & _ & _ & _ & _ & _ & e1 & He1 & Hw1 & _).
    exists e1. split; assumption.
  - destruct Hs2 as (_ & _ & _ & _ & _ & _ & e2 & He2 & Hw2 & _).
    cbv zeta. exists s2, e2. split_and!; try assumption.
    unfold get_gibbs_state. fold flat.
    change (fun x p : R => f_add (f_add (f_mul f_zero x) (f_mul f_zero p)) f_one)
      with flat.
    rewrite (seq_ok _ Hset).
    unfold mbind, M_bind, bind, getattr. rewrite Hn1. subst s0.
    cbn [self after_construction instance_of num_beta_steps propagate].
    unfold mbind, M_bind, bind. rewrite Hsteps.
    unfold getattr, mret, M_ret, ret. rewrite He2, Hw2. reflexivity.
Qed.

End RealGibbs.

(** ** The schedule for increments of either sign *)

Section SignedSchedule.
Local Open Scope R_scope.

Lemma Rabs_le_bounds (a b : R) : Rabs a <= b -> - b <= a <= b.
Proof. unfold Rabs. destruct (Rcase_abs a); lra. Qed.

Lemma py_round_opp (x : R) : x < 0 -> py_round x = - py_round (- x).
Proof.
  intros Hx. unfold py_round. cbn. rewrite Rabs_Ropp.
  rewrite (proj2 (Rltb_true x 0)) by lra.
  rewrite (proj2 (Rltb_false (- x) 0)) by lra.
  reflexivity.
Qed.

(** [round] of a nonzero real: an integer within 1/2 of it, of the same
    sign from magnitude 1/2 on, and 0 below. *)
Lemma py_round_near (x : R) :
  x <> 0 ->
  exists z : Z,
    py_round x = IZR z
    /\ Rabs (IZR z - x) <= 1 / 2
    /\ (1 / 2 <= x -> (1 <= z)%Z)
    /\ (x <= - (1 / 2) -> (z <= -1)%Z)
    /\ (Rabs x < 1 / 2 -> z = 0%Z).
Proof.
  intros Hx. destruct (Rlt_le_dec 0 x) as [Hpos|Hneg].
  - destruct (py_round_pos Hpos) as (z & Hr & Hz0 & Hz1 & Hz2 & Hnear).
    exists z. split_and!; try assumption.
    + apply Rabs_le. lra.
    + intros H. lra.
    + intros H. apply Hz2. rewrite Rabs_right in H; lra.
  - assert (Hlt : x < 0) by lra.
    destruct (py_round_pos (x := - x) ltac:(lra))
      as (z & Hr & Hz0 & Hz1 & Hz2 & Hnear).
    exists (- z)%Z. rewrite (py_round_opp Hlt), Hr, opp_IZR.
    split_and!; try reflexivity.
    + apply Rabs_le. lra.
    + intros H. lra.
    + intros H. specialize (Hz1 ltac:(lra)). lia.
    + intros H. rewrite Rabs_left in H by lra. rewrite Hz2; [reflexivity | lra].
Qed.

Lemma schedule_resolves (k d : R) :
  0 < k -> d <> 0 -> Rabs (k * d) <= 2 ->
  exists (q : R) (n : Z),
    resolved_schedule k d = Ok (q, n)
    /\ IZR n * q * k = 1
    /\ IZR n = py_round (1 / (k * d))
    /\ Rabs (IZR n - 1 / (k * d)) <= 1 / 2
    /\ (0 < d -> (1 <= n)%Z /\ 0 < q)
    /\ (d < 0 -> (n <= -1)%Z /\ q < 0)
    /\ (q = d <-> IZR n = 1 / (k * d)).
Proof.
  intros Hk Hd Hkd.
  assert (Hprod : k * d <> 0) by (apply Rmult_integral_contrapositive; lra).
  set (x := 1 / (k * d)).
  assert (Hx : x <> 0).
  { unfold x. intros H. apply Rmult_eq_compat_r with (r := k * d) in H.
    field_simplify in H; lra. }
  assert (Hxd : x * (k * d) = 1) by (unfold x; field; split; lra).
  assert (Hbig : 0 < d -> 1 / 2 <= x).
  { intros H. assert (0 < k * d) by (apply Rmult_lt_0_compat; lra).
    rewrite Rabs_right in Hkd by lra.
    apply Rmult_le_reg_r with (k * d); [lra|]. rewrite Hxd. lra. }
  assert (Hsmall : d < 0 -> x <= - (1 / 2)).
  { intros H. assert (k * d < 0) by nra.
    rewrite Rabs_left in Hkd by lra.
    apply Ropp_le_cancel. apply Rmult_le_reg_r with (- (k * d)); [lra|].
    replace (- x * - (k * d)) with (x * (k * d)) by ring. rewrite Hxd. lra. }
  destruct (py_round_near Hx) as (z & Hround & Hnear & Hz1 & Hz2 & _).
  assert (Hzpos : 0 < d -> (1 <= z)%Z) by (intros H; apply Hz1, Hbig, H).
  assert (Hzneg : d < 0 -> (z <= -1)%Z) by (intros H; apply Hz2, Hsmall, H).
  assert (HzR : 0 < d -> 1 <= IZR z) by (intros H; apply IZR_le, Hzpos, H).
  assert (HzR' : d < 0 -> IZR z <= -1) by (intros H; apply IZR_le, Hzneg, H).
  assert (Hz0 : IZR z <> 0).
  { destruct (Rlt_le_dec 0 d) as [H|H];
      [specialize (HzR H) | specialize (HzR' ltac:(lra))]; lra. }
  unfold resolved_schedule, py_div, py_int. run.
  rewrite (proj2 (Reqb_false (k * d) 0) Hprod). run.
  fold x. rewrite Hround.
  destruct (Reqb (IZR z) x) eqn:Heq; run.
  - apply Reqb_true in Heq. exists d, z. rewrite <- Heq, Rtrunc_IZR.
    split_and!; try reflexivity; try assumption.
    + rewrite Heq. rewrite <- Hxd. ring.
    + rewrite Rminus_diag, Rabs_R0. lra.
    + intros H. split; [apply Hzpos, H | exact H].
    + intros H. split; [apply Hzneg, H | exact H].
    + split; reflexivity.
  - apply Reqb_false in Heq.
    assert (Hkz : k * IZR z <> 0) by (apply Rmult_integral_contrapositive; lra).
    rewrite (proj2 (Reqb_false (k * IZR z) 0) Hkz). run.
    exists (1 / (k * IZR z)), z. rewrite Rtrunc_IZR.
    split_and!; try reflexivity; try assumption.
    + field. lra.
    + intros H. split; [apply Hzpos, H|]. specialize (HzR H).
      apply Rdiv_lt_0_compat; [lra | apply Rmult_lt_0_compat; lra].
    + intros H. split; [apply Hzneg, H|]. specialize (HzR' H).
      assert (Hn : k * IZR z < 0) by nra.
      unfold Rdiv. rewrite Rmult_1_l. apply Rinv_lt_0_compat. exact Hn.
    + split; [|intros H; contradiction].
      intros H. exfalso. apply Heq.
      assert (Hd' : d * (k * IZR z) = 1) by (rewrite <- H; field; lra).
      apply Rmult_eq_reg_r with (k * d); [|exact Hprod].
      rewrite Hxd. rewrite <- Hd'. ring.
Qed.

(** The division of line 35 or of line 40 fails for a zero increment and
    for one coarser, in magnitude, than twice the range. *)
Lemma schedule_fails (k d : R) :
  0 < k -> d = 0 \/ 2 < Rabs (k * d) ->
  resolved_schedule k d = Raise (ZeroDivisionError float_div_zero).
Proof.
  intros Hk [->|Hkd].
  - unfold resolved_schedule, py_div. run. rewrite Rmult_0_r.
    rewrite (proj2 (Reqb_true 0 0) eq_refl). reflexivity.
  - assert (Hprod : k * d <> 0).
    { intros H. rewrite H, Rabs_R0 in Hkd. lra. }
    set (x := 1 / (k * d)).
    assert (Hd : d <> 0) by (intros ->; apply Hprod; ring).
    assert (Hxd : x * (k * d) = 1) by (unfold x; field; split; lra).
    assert (Hx : x <> 0) by (intros H; rewrite H in Hxd; lra).
    assert (Hsmall : Rabs x < 1 / 2).
    { apply Rmult_lt_reg_r with (Rabs (k * d)); [lra|].
      rewrite <- Rabs_mult, Hxd, Rabs_R1. lra. }
    destruct (py_round_near Hx) as (z & Hround & _ & _ & _ & Hz).
    specialize (Hz Hsmall). subst z.
    unfold resolved_schedule, py_div. run.
    rewrite (proj2 (Reqb_false (k * d) 0) Hprod). run.
    fold x. rewrite Hround.
    rewrite (proj2 (Reqb_false 0 x)) by (intros H; apply Hx; symmetry; exact H).
    run. rewrite Rmult_0_r.
    rewrite (proj2 (Reqb_true 0 0) eq_refl). reflexivity.
Qed.

End SignedSchedule.

(** ** Where a construction stops *)

Section ScheduleOutcome.
Context {F : Type} {FO : FloatOps F} {EO : ExpOps F}.
Variable parent_init : dict F -> result (@Engine F).

(** A failure of lines 27-45 ends the construction with the temperature
    stored and nothing else begun. *)
Lemma construct_schedule_raises
    (s : @state F) (params : loc) (m : dict F) (v : pyval) (err : exn) :
  heap s !! params = Some m ->
  m !! "kT" = Some v ->
  schedule_value v m = Raise err ->
  exists s',
    WignerBlochFFTW1D parent_init params s = (s', Raise err)
    /\ same_but_schedule (with_self (entry s m) (set_kT v blank)) s'.
Proof.
  intros Hm Hk Hs. rewrite (construct_entry parent_init Hm). unfold __init__.
  rewrite (seq_ok _ (init_temperature_ok (entry_kwargs s m) Hk)).
  pose proof (@init_schedule_total F _
                (with_self (entry s m) (set_kT v (self (entry s m))))
                (fresh (dom (heap s))) m v (entry_kwargs s m) eq_refl) as H.
  rewrite Hs in H. destruct H as (s1 & H & Hsame).
  rewrite (seq_raise _ H). exists s1. split; [reflexivity | exact Hsame].
Qed.

(** A construction whose schedule resolves and whose parent constructor
    returns reaches the kernels with lines 22-54 done. *)
Lemma construct_reaches_kernels
    (s : @state F) (params : loc) (m : dict F) (k q : F) (n : Z) (e : @Engine F) :
  heap s !! params = Some m ->
  m !! "kT" = Some (VFloat k) ->
  schedule_value (VFloat k) m = Ok (k, q, n) ->
  parent_init (parent_kwargs q m) = Ok e ->
  WignerBlochFFTW1D parent_init params s
  = (init_expV;; init_expK)
      (mkState (<[fresh (dom (heap s)) := parent_kwargs q m]> (heap s))
               (stdout s)
               (set_engine (set_isEhrenfest false e)
                  (scheduled q n (set_kT (VFloat k) blank)))).
Proof.
  intros Hm Hk Hs He. rewrite (construct_entry parent_init Hm). unfold __init__.
  rewrite (seq_ok _ (init_temperature_ok (entry_kwargs s m) Hk)).
  pose proof (@init_schedule_total F _
                (with_self (entry s m) (set_kT (VFloat k) (self (entry s m))))
                (fresh (dom (heap s))) m (VFloat k) (entry_kwargs s m) eq_refl) as H.
  rewrite Hs in H. destruct H as [_ H]. rewrite (seq_ok _ H). clear H.
  pose proof (@init_parent_total F parent_init
        (with_self (with_self (entry s m) (set_kT (VFloat k) (self (entry s m))))
           (scheduled q n (set_kT (VFloat k) (self (entry s m)))))
        (fresh (dom (heap s))) m q (entry_kwargs s m) eq_refl) as Hp.
  rewrite He in Hp. rewrite (seq_ok _ Hp). cbn. rewrite insert_insert_eq.
  reflexivity.
Qed.

End ScheduleOutcome.

Section RealScheduleOutcome.
Local Open Scope R_scope.
Variable parent_init : dict R -> result (@Engine R).

Lemma schedule_value_real (m : dict R) (k q : R) (n : Z) :
  schedule_value (VFloat k) m = Ok (k, q, n) ->
  exists d0, initial_dbeta m = VFloat d0
             /\ 0 < k /\ resolved_schedule k d0 = Ok (q, n).
Proof.
  unfold schedule_value. cbn [py_gt_zero f_ltb f_zero real_ops].
  destruct (Rltb 0 k) eqn:Hk; [|discriminate]. apply Rltb_true in Hk.
  destruct (initial_dbeta m) as [d0|c]; [|discriminate].
  destruct (resolved_schedule k d0) as [[q' n']|err] eqn:Hr; [|discriminate].
  cbn. intros [= <- <-]. exists d0. split_and!; [reflexivity | exact Hk | exact Hr].
Qed.

(** What a schedule that resolved in exact arithmetic satisfies. *)
Lemma resolved_schedule_inv (k d q : R) (n : Z) :
  0 < k ->
  resolved_schedule k d = Ok (q, n) ->
  d <> 0 /\ Rabs (k * d) <= 2
  /\ IZR n * q * k = 1
  /\ IZR n = py_round (1 / (k * d))
  /\ Rabs (IZR n - 1 / (k * d)) <= 1 / 2
  /\ (0 < d -> (1 <= n)%Z /\ 0 < q)
  /\ (d < 0 -> (n <= -1)%Z /\ q < 0)
  /\ (q = d <-> IZR n = 1 / (k * d)).
Proof.
  intros Hk Hr.
  destruct (Req_dec_T d 0) as [Hd|Hd].
  { rewrite (schedule_fails Hk (or_introl Hd)) in Hr. discriminate. }
  destruct (Rle_lt_dec (Rabs (k * d)) 2) as [Hle|Hgt].
  2:{ rewrite (schedule_fails Hk (or_intror Hgt)) in Hr. discriminate. }
  destruct (schedule_resolves Hk Hd Hle) as (q' & n' & Hr' & H).
  rewrite Hr' in Hr. injection Hr as <- <-.
  split; [exact Hd|]. split; [exact Hle|]. exact H.
Qed.

Lemma completed_schedule (s : @state R) (params : loc) (m : dict R) :
  heap s !! params = Some m ->
  (WignerBlochFFTW1D parent_init params s).2 = Ok tt ->
  exists (b : @built R) (d0 : R),
    WignerBlochFFTW1D parent_init params s = (after_construction s m b, Ok tt)
    /\ construct_value parent_init m = Ok b
    /\ m !! "kT" = Some (VFloat (b_kT b))
    /\ initial_dbeta m = VFloat d0
    /\ 0 < b_kT b
    /\ resolved_schedule (b_kT b) d0 = Ok (b_dbeta b, b_steps b).
Proof.
  intros Hm Hok.
  destruct (construct_completed Hm Hok) as (b & Hb & Hrun).
  destruct (construct_value_inv Hb) as (e0 & outv & outk & Hk & Hs & _).
  destruct (schedule_value_real Hs) as (d0 & Hd & Hk0 & Hr).
  exists b, d0. split_and!; assumption.
Qed.

(** X1: in exact arithmetic every completed construction holds a
    schedule that covers the range exactly: the temperature is positive,
    the increment line 29 or 32 assigned is nonzero and not coarser than
    twice the range, and num_beta_steps * dbeta * kT = 1 for the values
    the object ends with; from a positive increment the number of steps is
    at least 1 and the resolved increment is positive. *)
Theorem X1_completed_schedule_covers_the_range
    (s : @state R) (params : loc) (m : dict R) :
  heap s !! params = Some m ->
  let out := WignerBlochFFTW1D parent_init params s in
  out.2 = Ok tt ->
  exists (k d0 q : R) (n : Z),
    m !! "kT" = Some (VFloat k)
    /\ initial_dbeta m = VFloat d0
    /\ kT (self out.1) = Some (VFloat k)
    /\ dbeta (self out.1) = Some (VFloat q)
    /\ num_beta_steps (self out.1) = Some (NInt n)
    /\ 0 < k /\ d0 <> 0 /\ Rabs (k * d0) <= 2
    /\ IZR n * q * k = 1
    /\ (0 < d0 -> (1 <= n)%Z /\ 0 < q).
Proof.
  intros Hm out Hok. subst out.
  destruct (completed_schedule Hm Hok) as (b & d0 & Hrun & _ & Hk & Hd & Hk0 & Hr).
  destruct (resolved_schedule_inv Hk0 Hr)
    as (Hd0 & Hle & Hprod & _ & _ & Hpos & _).
  rewrite Hrun. cbn.
  exists (b_kT b), d0, (b_dbeta b), (b_steps b).
  split_and!; try reflexivity; assumption.
Qed.

(** X2: in exact arithmetic the number of steps of a completed
    construction is [round(1/(kT*dbeta))], within 1/2 of the quotient; the
    increment is kept exactly when the quotient is an integer, and it
    never moves by more than |dbeta| / (2 * |num_beta_steps|). *)
Theorem X2_steps_are_the_nearest_integer
    (s : @state R) (params : loc) (m : dict R) (k d0 : R) :
  heap s !! params = Some m ->
  m !! "kT" = Some (VFloat k) ->
  initial_dbeta m = VFloat d0 ->
  let out := WignerBlochFFTW1D parent_init params s in
  out.2 = Ok tt ->
  exists (q : R) (n : Z),
    dbeta (self out.1) = Some (VFloat q)
    /\ num_beta_steps (self out.1) = Some (NInt n)
    /\ IZR n = py_round (1 / (k * d0))
    /\ Rabs (IZR n - 1 / (k * d0)) <= 1 / 2
    /\ (q = d0 <-> exists z : Z, 1 / (k * d0) = IZR z)
    /\ Rabs (q - d0) * (2 * Rabs (IZR n)) <= Rabs d0.
Proof.
  intros Hm HkT Hd out Hok. subst out.
  destruct (completed_schedule Hm Hok)
    as (b & d0' & Hrun & _ & Hk & Hd' & Hk0 & Hr).
  assert (b_kT b = k) as Hkk by congruence.
  assert (d0' = d0) as -> by congruence.
  rewrite Hkk in *. clear Hkk.
  destruct (resolved_schedule_inv Hk0 Hr)
    as (Hd0 & Hle & Hprod & Hround & Hnear & _ & _ & Hkeep).
  rewrite Hrun. cbn. exists (b_dbeta b), (b_steps b).
  set (q := b_dbeta b) in *. set (n := b_steps b) in *.
  assert (Hkd : k * d0 <> 0) by (apply Rmult_integral_contrapositive; lra).
  set (x := 1 / (k * d0)) in *.
  assert (Hxd : x * (k * d0) = 1) by (unfold x; field; split; lra).
  split_and!; try reflexivity; try assumption.
  - rewrite Hkeep. split.
    + intros H. exists n. symmetry. exact H.
    + intros [z Hz]. rewrite Hz in Hnear. rewrite <- minus_IZR in Hnear.
      apply Rabs_le_bounds in Hnear. destruct Hnear as [Hlo Hhi].
      assert (H1 : IZR (-1) < IZR (n - z)) by lra.
      assert (H2 : IZR (n - z) < IZR 1) by lra.
      apply lt_IZR in H1. apply lt_IZR in H2.
      rewrite Hz. f_equal. lia.
  - assert (Heq : (q - d0) * IZR n = (x - IZR n) * d0).
    { apply Rmult_eq_reg_r with k; [|lra].
      replace ((q - d0) * IZR n * k) with (IZR n * q * k - IZR n * d0 * k) by ring.
      rewrite Hprod.
      replace ((x - IZR n) * d0 * k) with (x * (k * d0) - IZR n * d0 * k) by ring.
      rewrite Hxd. reflexivity. }
    replace (Rabs (q - d0) * (2 * Rabs (IZR n)))
      with (2 * (Rabs (q - d0) * Rabs (IZR n))) by ring.
    rewrite <- Rabs_mult, Heq, Rabs_mult.
    rewrite (Rabs_minus_sym x (IZR n)).
    pose proof (Rabs_pos d0). nra.
Qed.

(** X3: in exact arithmetic, with a positive temperature, a zero
    increment (line 35) and an increment with |kT * dbeta| > 2 (line 40,
    after [round] returned 0) end the construction with
    [ZeroDivisionError]: the temperature is stored, the parent constructor
    has not run, no kernel and no accessor exists, nothing has been
    printed and the caller's dictionary is as it was. *)
Theorem X3_zero_or_coarse_increment_divides_by_zero
    (s : @state R) (params : loc) (m : dict R) (k d0 : R) :
  heap s !! params = Some m ->
  m !! "kT" = Some (VFloat k) ->
  initial_dbeta m = VFloat d0 ->
  0 < k ->
  d0 = 0 \/ 2 < Rabs (k * d0) ->
  let out := WignerBlochFFTW1D parent_init params s in
  out.2 = Raise (ZeroDivisionError float_div_zero)
  /\ kT (self out.1) = Some (VFloat k)
  /\ engine (self out.1) = None
  /\ _expV (self out.1) = None /\ _expK (self out.1) = None
  /\ get_exp_v (self out.1) = None /\ get_exp_k (self out.1) = None
  /\ stdout out.1 = stdout s
  /\ heap out.1 !! params = Some m.
Proof.
  intros Hm Hk Hd Hk0 Hbad out. subst out.
  assert (Hs : schedule_value (VFloat k) m
               = Raise (ZeroDivisionError float_div_zero)).
  { unfold schedule_value. cbn [py_gt_zero f_ltb f_zero real_ops].
    rewrite (proj2 (Rltb_true 0 k) Hk0), Hd.
    rewrite (schedule_fails Hk0 Hbad). reflexivity. }
  destruct (construct_schedule_raises parent_init Hm Hk Hs)
    as (s' & Hrun & Hh & Hout & HkT & He & HV & HK & Hgv & Hgk).
  rewrite Hrun. cbn [fst snd].
  split_and!; try reflexivity; try assumption.
  - rewrite Hh. apply (entry_params m Hm).
Qed.

(** X4: a negative increment is not rejected.  In exact arithmetic,
    with kT > 0 and -2 <= kT * dbeta < 0, lines 35-42 resolve a negative
    number of steps and a negative increment whose product with kT is
    still 1, and the construction completes on any grid of one shape. *)
Theorem X4_negative_increment_is_accepted
    (s : @state R) (params : loc) (m : dict R) (k d0 : R) :
  heap s !! params = Some m ->
  m !! "kT" = Some (VFloat k) ->
  initial_dbeta m = VFloat d0 ->
  0 < k -> d0 < 0 -> -2 <= k * d0 ->
  exists (q : R) (n : Z),
    (n <= -1)%Z /\ q < 0 /\ IZR n * q * k = 1
    /\ forall e : @Engine R,
         parent_init (parent_kwargs q m) = Ok e ->
         well_shaped e ->
         let out := WignerBlochFFTW1D parent_init params s in
         out.2 = Ok tt
         /\ dbeta (self out.1) = Some (VFloat q)
         /\ num_beta_steps (self out.1) = Some (NInt n).
Proof.
  intros Hm Hk Hd Hk0 Hd0 Hkd.
  assert (Hle : Rabs (k * d0) <= 2).
  { assert (k * d0 < 0) by nra. rewrite Rabs_left; lra. }
  destruct (schedule_resolves Hk0 (Rlt_not_eq _ _ Hd0) Hle)
    as (q & n & Hr & Hprod & _ & _ & _ & Hneg & _).
  destruct (Hneg Hd0) as [Hn Hq].
  exists q, n. split_and!; try assumption.
  intros e He Hshape out. subst out.
  assert (Hs : schedule_value (VFloat k) m = Ok (k, q, n)).
  { unfold schedule_value. cbn [py_gt_zero f_ltb f_zero real_ops].
    rewrite (proj2 (Rltb_true 0 k) Hk0), Hd, Hr. reflexivity. }
  rewrite (construct_on_grid Hm Hk Hs He Hshape). cbn.
  split_and!; reflexivity.
Qed.

End RealScheduleOutcome.

(** ** What the keyword arguments contribute *)

Section KeywordArguments.
Context {F : Type} {FO : FloatOps F} {EO : ExpOps F}.
Variable parent_init : dict F -> result (@Engine F).

Lemma parent_kwargs_ext (q : F) (m1 m2 : dict F) :
  (forall key, key <> "dbeta" -> key <> "dt" -> m1 !! key = m2 !! key) ->
  parent_kwargs q m1 = parent_kwargs q m2.
Proof.
  intros H. unfold parent_kwargs. apply map_eq. intros key.
  destruct (decide (key = "dt")) as [->|Hdt]; [by simplify_map_eq|].
  destruct (decide (key = "dbeta")) as [->|Hdb]; [by simplify_map_eq|].
  rewrite !lookup_insert_ne by congruence. apply H; assumption.
Qed.

Lemma construct_value_ext (m1 m2 : dict F) :
  m1 !! "kT" = m2 !! "kT" ->
  initial_dbeta m1 = initial_dbeta m2 ->
  (forall key, key <> "dbeta" -> key <> "dt" -> m1 !! key = m2 !! key) ->
  construct_value parent_init m1 = construct_value parent_init m2.
Proof.
  intros Hk Hd Hrest. unfold construct_value, schedule_value.
  rewrite Hk, Hd.
  destruct (m2 !! "kT") as [v|]; [|reflexivity]. cbn [mbind result_bind rbind].
  destruct (py_gt_zero v); [|reflexivity].
  destruct v as [k|c]; [|reflexivity].
  destruct (initial_dbeta m2) as [d0|c]; [|reflexivity].
  destruct (resolved_schedule k d0) as [[q n]|err]; [|reflexivity].
  cbn [mbind result_bind rbind]. rewrite (parent_kwargs_ext q Hrest).
  reflexivity.
Qed.

(** X6: the constructor reads its keyword arguments only through [kT],
    through the increment line 29 or 32 assigns (the entry [dbeta], or
    0.01 without one) and through the entries other than [dbeta] and
    [dt], which it overwrites in line 48.  Two calls that agree on these
    end alike: the same result or the same exception, and on completion
    the same object and the same lines printed.  So leaving [dbeta] out
    is passing 0.01, and a [dt] of the caller has no effect. *)
Theorem X6_only_kT_the_increment_and_the_other_entries_matter
    (s1 s2 : @state F) (p1 p2 : loc) (m1 m2 : dict F) :
  heap s1 !! p1 = Some m1 ->
  heap s2 !! p2 = Some m2 ->
  m1 !! "kT" = m2 !! "kT" ->
  initial_dbeta m1 = initial_dbeta m2 ->
  (forall key, key <> "dbeta" -> key <> "dt" -> m1 !! key = m2 !! key) ->
  let out1 := WignerBlochFFTW1D parent_init p1 s1 in
  let out2 := WignerBlochFFTW1D parent_init p2 s2 in
  out1.2 = out2.2
  /\ (out1.2 = Ok tt ->
      self out1.1 = self out2.1
      /\ exists lines, stdout out1.1 = (stdout s1 ++ lines)%list
                       /\ stdout out2.1 = (stdout s2 ++ lines)%list).
Proof.
  intros Hm1 Hm2 Hk Hd Hrest out1 out2. subst out1 out2.
  pose proof (construct_total parent_init Hm1) as H1.
  pose proof (construct_total parent_init Hm2) as H2.
  rewrite (construct_value_ext Hk Hd Hrest) in H1.
  destruct (construct_value parent_init m2) as [b|err].
  - rewrite H1, H2. cbn. split; [reflexivity|]. intros _.
    split; [reflexivity|]. exists (b_out b). split; reflexivity.
  - destruct H1 as (s1' & -> & _). destruct H2 as (s2' & -> & _). cbn.
    split; [reflexivity | discriminate].
Qed.

(** *** The dictionaries on the heap *)

Lemma construct_parent_raises
    (s : @state F) (params : loc) (m : dict F) (k q : F) (n : Z) (err : exn) :
  heap s !! params = Some m ->
  m !! "kT" = Some (VFloat k) ->
  schedule_value (VFloat k) m = Ok (k, q, n) ->
  parent_init (parent_kwargs q m) = Raise err ->
  WignerBlochFFTW1D parent_init params s
  = (mkState (<[fresh (dom (heap s)) := parent_kwargs q m]> (heap s))
             (stdout s) (scheduled q n (set_kT (VFloat k) blank)),
     Raise err).
Proof.
  intros Hm Hk Hs He. rewrite (construct_entry parent_init Hm). unfold __init__.
  rewrite (seq_ok _ (init_temperature_ok (entry_kwargs s m) Hk)).
  pose proof (@init_schedule_total F _
                (with_self (entry s m) (set_kT (VFloat k) (self (entry s m))))
                (fresh (dom (heap s))) m (VFloat k) (entry_kwargs s m) eq_refl) as H.
  rewrite Hs in H. destruct H as [_ H]. rewrite (seq_ok _ H). clear H.
  pose proof (@init_parent_total F parent_init
        (with_self (with_self (entry s m) (set_kT (VFloat k) (self (entry s m))))
           (scheduled q n (set_kT (VFloat k) (self (entry s m)))))
        (fresh (dom (heap s))) m q (entry_kwargs s m) eq_refl) as Hp.
  rewrite He in Hp. rewrite (seq_raise _ Hp). cbn. rewrite insert_insert_eq.
  reflexivity.
Qed.

Lemma schedule_value_float (v : pyval) (m : dict F) (k q : F) (n : Z) :
  schedule_value v m = Ok (k, q, n) -> v = VFloat k.
Proof.
  unfold schedule_value. destruct (py_gt_zero v); [|discriminate].
  destruct v as [k'|c]; [|discriminate].
  destruct (initial_dbeta m) as [d0|c]; [|discriminate].
  destruct (resolved_schedule k' d0) as [[q' n']|err]; [|discriminate].
  cbn. intros [= <- _ _]. reflexivity.
Qed.

(** In every outcome the heap has grown by the dictionary of keyword
    arguments and by nothing else. *)
Lemma construct_heap (s : @state F) (params : loc) (m : dict F) :
  heap s !! params = Some m ->
  exists kw,
    heap (WignerBlochFFTW1D parent_init params s).1
    = <[fresh (dom (heap s)) := kw]> (heap s).
Proof.
  intros Hm.
  destruct (m !! "kT") as [v|] eqn:Hk.
  2:{ rewrite (construct_missing_kT parent_init Hm Hk). exists m. reflexivity. }
  destruct (schedule_value v m) as [[[k q] n]|err] eqn:Hs.
  2:{ destruct (construct_schedule_raises parent_init Hm Hk Hs)
        as (s' & -> & Hh & _).
      exists m. cbn. rewrite Hh. reflexivity. }
  pose proof (schedule_value_float Hs) as ->.
  destruct (parent_init (parent_kwargs q m)) as [e|err] eqn:He.
  2:{ rewrite (construct_parent_raises Hm Hk Hs He). eexists. reflexivity. }
  rewrite (construct_reaches_kernels Hm Hk Hs He).
  exists (parent_kwargs q m).
  match goal with |- context [(init_expV;; init_expK) ?st] => set (st0 := st) end.
  pose proof (@init_expV_total F _ _ st0 (set_isEhrenfest false e) q
                eq_refl eq_refl) as Hv.
  destruct (expV_value q (set_isEhrenfest false e)) as [[kv outv]|err].
  2:{ destruct Hv as (s1 & Hv & Hh & _). rewrite (seq_raise _ Hv). exact Hh. }
  rewrite (seq_ok _ Hv).
  match goal with |- context [init_expK ?st] => set (st1 := st) end.
  pose proof (@init_expK_total F _ _ st1 (set_isEhrenfest false e) q
                eq_refl eq_refl) as Hkk.
  destruct (expK_value q (set_isEhrenfest false e)) as [[kk outk]|err].
  - rewrite Hkk. reflexivity.
  - destruct Hkk as (s2 & -> & Hh). exact Hh.
Qed.

(** X7: whatever the outcome, completion or any exception, the
    constructor leaves every dictionary that existed before the call as it
    was, the one the caller unpacked included; the heap grows by the
    dictionary of keyword arguments and by nothing else. *)
Theorem X7_no_existing_dictionary_is_modified
    (s : @state F) (params : loc) (m : dict F) :
  heap s !! params = Some m ->
  let out := WignerBlochFFTW1D parent_init params s in
  heap out.1 !! params = Some m
  /\ (forall (l : loc) (d : dict F),
        heap s !! l = Some d -> heap out.1 !! l = Some d)
  /\ dom (heap out.1) = {[fresh (dom (heap s))]} ∪ dom (heap s).
Proof.
  intros Hm out. subst out.
  destruct (construct_heap Hm) as [kw Hh]. rewrite Hh.
  assert (Hkeep : forall (l : loc) (d : dict F),
             heap s !! l = Some d ->
             <[fresh (dom (heap s)) := kw]> (heap s) !! l = Some d).
  { intros l d Hl. rewrite lookup_insert_ne; [exact Hl|].
    intros <-. apply (is_fresh (dom (heap s))), elem_of_dom. eauto. }
  split_and!.
  - apply Hkeep, Hm.
  - exact Hkeep.
  - apply dom_insert_L.
Qed.

(** *** Failures past the schedule, and operands that are not numbers *)


(** X15: a callable where a number is expected is not diagnosed as
    such.  A callable [kT] passes the test [kT > 0] of line 27, since
    Python 2 orders numbers below other objects, and the product of line
    35 raises [TypeError]; so does a callable [dbeta] with a positive
    temperature.  Nothing beyond the temperature and the increment has
    been stored then. *)
Theorem X15_callable_kT_or_dbeta_raises_TypeError
    (s : @state F) (params : loc) (m : dict F) (v : pyval) :
  heap s !! params = Some m ->
  m !! "kT" = Some v ->
  (exists c, v = VCallable c)
  \/ (py_gt_zero v = true /\ exists c, initial_dbeta m = VCallable c) ->
  let out := WignerBlochFFTW1D parent_init params s in
  out.2 = Raise (TypeError bad_operand)
  /\ kT (self out.1) = Some v
  /\ engine (self out.1) = None
  /\ _expV (self out.1) = None /\ _expK (self out.1) = None
  /\ stdout out.1 = stdout s.
Proof.
  intros Hm Hk Hbad out. subst out.
  assert (Hs : schedule_value v m = Raise (TypeError bad_operand)).
  { unfold schedule_value. destruct Hbad as [[c ->]|[Hpos [c Hd]]].
    - reflexivity.
    - rewrite Hpos, Hd. destruct v; reflexivity. }
  destruct (construct_schedule_raises parent_init Hm Hk Hs)
    as (s' & Hrun & Hh & Hout & HkT & Hen & HV & HK & _).
  rewrite Hrun. cbn [fst snd]. split_and!; try reflexivity; assumption.
Qed.

End KeywordArguments.

Section ResolvedIncrement.
Local Open Scope R_scope.
Variable parent_init : dict R -> result (@Engine R).

Lemma py_round_integer (z : Z) : z <> 0%Z -> py_round (IZR z) = IZR z.
Proof.
  intros Hz. assert (Hx : IZR z <> 0) by (apply not_0_IZR; exact Hz).
  destruct (py_round_near Hx) as (z' & Hr & Hnear & _).
  rewrite Hr. f_equal. rewrite <- minus_IZR in Hnear.
  apply Rabs_le_bounds in Hnear. destruct Hnear as [Hlo Hhi].
  assert (H1 : IZR (-1) < IZR (z' - z)) by lra.
  assert (H2 : IZR (z' - z) < IZR 1) by lra.
  apply lt_IZR in H1. apply lt_IZR in H2. lia.
Qed.

(** A resolved increment resolves to itself. *)
Lemma resolved_schedule_fixed (k q : R) (n : Z) :
  IZR n * q * k = 1 -> resolved_schedule k q = Ok (q, n).
Proof.
  intros Hprod.
  assert (Hn : n <> 0%Z) by (intros ->; lra).
  assert (HnR : IZR n <> 0) by (apply not_0_IZR; exact Hn).
  assert (Hkq : k * q <> 0) by (intros H; nra).
  assert (Hraw : 1 / (k * q) = IZR n).
  { apply Rmult_eq_reg_r with (k * q); [|exact Hkq].
    replace (IZR n * (k * q)) with (IZR n * q * k) by ring. rewrite Hprod.
    field. split; intros ->; apply Hkq; ring. }
  unfold resolved_schedule, py_div, py_int. run.
  rewrite (proj2 (Reqb_false (k * q) 0) Hkq). run.
  rewrite Hraw, (py_round_integer Hn).
  rewrite (proj2 (Reqb_true (IZR n) (IZR n)) eq_refl). run.
  rewrite Rtrunc_IZR. reflexivity.
Qed.

(** X5: the resolved increment is a fixed point of the schedule: in
    exact arithmetic, constructing again with [dbeta] set to the increment
    a completed construction resolved completes too and builds the same
    object, attribute by attribute. *)
Theorem X5_resolved_increment_is_a_fixed_point
    (s s2 : @state R) (params p2 : loc) (m : dict R) (q : R) :
  heap s !! params = Some m ->
  let out := WignerBlochFFTW1D parent_init params s in
  out.2 = Ok tt ->
  dbeta (self out.1) = Some (VFloat q) ->
  heap s2 !! p2 = Some (<["dbeta" := VFloat q]> m) ->
  let out2 := WignerBlochFFTW1D parent_init p2 s2 in
  out2.2 = Ok tt /\ self out2.1 = self out.1.
Proof.
  intros Hm out Hok Hq Hm2 out2. subst out out2.
  destruct (completed_schedule Hm Hok)
    as (b & d0 & Hrun & Hb & Hk & Hd & Hk0 & Hr).
  rewrite Hrun in Hq |- *. cbn in Hq. injection Hq as <-.
  destruct (resolved_schedule_inv Hk0 Hr) as (_ & _ & Hprod & _).
  assert (Hb2 : construct_value parent_init (<["dbeta" := VFloat (b_dbeta b)]> m)
                = Ok b).
  { rewrite <- Hb. unfold construct_value, schedule_value.
    rewrite lookup_insert_ne by discriminate. rewrite Hk.
    cbn [mbind result_bind rbind py_gt_zero f_ltb f_zero real_ops].
    rewrite (proj2 (Rltb_true 0 (b_kT b)) Hk0), Hd.
    unfold initial_dbeta at 1. rewrite lookup_insert_eq.
    rewrite (resolved_schedule_fixed Hprod), Hr.
    cbn [mbind result_bind rbind].
    unfold parent_kwargs. rewrite insert_insert_eq. reflexivity. }
  pose proof (construct_total parent_init Hm2) as H2.
  rewrite Hb2 in H2. rewrite H2. cbn. split; reflexivity.
Qed.

(** *** The temperatures of the example *)

(** X12: the temperatures the example draws (line 133: kT between 0.1
    and 1, with no [dbeta] among the parameters) always resolve.  In exact
    arithmetic the default increment 0.01 gives between 100 and 1000
    steps, with num_beta_steps * dbeta * kT = 1, and the construction
    completes on any grid of one shape. *)
Theorem X12_demo_temperatures_resolve
    (s : @state R) (params : loc) (m : dict R) (k : R) :
  heap s !! params = Some m ->
  m !! "kT" = Some (VFloat k) ->
  m !! "dbeta" = None ->
  1 / 10 <= k <= 1 ->
  exists (q : R) (n : Z),
    (100 <= n <= 1000)%Z
    /\ IZR n * q * k = 1
    /\ forall e : @Engine R,
         parent_init (parent_kwargs q m) = Ok e ->
         well_shaped e ->
         let out := WignerBlochFFTW1D parent_init params s in
         out.2 = Ok tt
         /\ dbeta (self out.1) = Some (VFloat q)
         /\ num_beta_steps (self out.1) = Some (NInt n).
Proof.
  intros Hm Hk Hdb [Hlo Hhi].
  assert (Hk0 : 0 < k) by lra.
  assert (Hd : initial_dbeta m = VFloat (1 / 100))
    by (unfold initial_dbeta; rewrite Hdb; reflexivity).
  assert (Hle : Rabs (k * (1 / 100)) <= 2) by (rewrite Rabs_right; lra).
  destruct (@schedule_resolves k (1 / 100) Hk0 ltac:(lra) Hle)
    as (q & n & Hr & Hprod & _ & Hnear & _).
  exists q, n.
  assert (Hx : 100 <= 1 / (k * (1 / 100)) <= 1000).
  { replace (1 / (k * (1 / 100))) with (100 / k) by (field; lra). split.
    - apply Rmult_le_reg_r with k; [lra|]. unfold Rdiv.
      rewrite Rmult_assoc, Rinv_l by lra. lra.
    - apply Rmult_le_reg_r with k; [lra|]. unfold Rdiv.
      rewrite Rmult_assoc, Rinv_l by lra. lra. }
  apply Rabs_le_bounds in Hnear.
  split_and!.
  - assert (H : IZR 99 < IZR n) by lra. apply lt_IZR in H. lia.
  - assert (H : IZR n < IZR 1001) by lra. apply lt_IZR in H. lia.
  - exact Hprod.
  - intros e He Hshape out. subst out.
    assert (Hs : schedule_value (VFloat k) m = Ok (k, q, n)).
    { unfold schedule_value. cbn [py_gt_zero f_ltb f_zero real_ops].
      rewrite (proj2 (Rltb_true 0 k) Hk0), Hd, Hr. reflexivity. }
    rewrite (construct_on_grid Hm Hk Hs He Hshape). cbn.
    split_and!; reflexivity.
Qed.

End ResolvedIncrement.

(** ** Further properties of the kernels *)

Section RealKernelProperties.
Local Open Scope R_scope.

Lemma exp_pow_nat (x : R) (n : nat) : exp x ^ n = exp (INR n * x).
Proof.
  induction n as [|n IH].
  - cbn. rewrite Rmult_0_l, exp_0. reflexivity.
  - rewrite S_INR. cbn [pow]. rewrite IH, <- exp_plus. f_equal. ring.
Qed.








(** The kernels a completed construction over a grid of one shape caches. *)
Lemma completed_kernels
    (parent_init : dict R -> result (@Engine R))
    (s : @state R) (params : loc) (m : dict R) (e : @Engine R) (q : R) :
  heap s !! params = Some m ->
  let out := WignerBlochFFTW1D parent_init params s in
  out.2 = Ok tt ->
  engine (self out.1) = Some e ->
  dbeta (self out.1) = Some (VFloat q) ->
  well_shaped e ->
  _expV (self out.1) = Some (potential_kernel q e)
  /\ _expK (self out.1) = Some (kinetic_kernel q e).
Proof.
  intros Hm out Hok. subst out.
  destruct (construct_completed Hm Hok) as (b & Hb & Hrun).
  destruct (construct_value_inv Hb)
    as (e0 & outv & outk & _ & _ & _ & _ & HV & HK & _).
  rewrite Hrun. cbn. intros [= <-] [= <-] Hshape.
  rewrite (expV_value_same _ Hshape) in HV.
  rewrite (expK_value_same _ Hshape) in HK.
  injection HV as <- _. injection HK as <- _. split; reflexivity.
Qed.

Lemma potential_kernel_lookup (q : R) (e : @Engine R) (i : nat) (x th b : R) :
  X e !! i = Some x -> Theta e !! i = Some th -> abs_boundary e !! i = Some b ->
  potential_kernel q e !! i
  = Some (exp ((potential_at (eval_at (V e) (t e)) x th
                - least (potential_sums e)) * (- q * (1 / 2))) * b).
Proof.
  intros Hx Hth Hb. unfold potential_kernel, weights.
  rewrite array_min_least. unfold ndarray in *.
  rewrite lookup_zip_with, list_lookup_fmap, lookup_zip_with, Hx, Hth, Hb.
  reflexivity.
Qed.

Lemma kinetic_kernel_lookup (q : R) (e : @Engine R) (j : nat) (p l : R) :
  P e !! j = Some p -> Lambda e !! j = Some l ->
  kinetic_kernel q e !! j
  = Some (exp ((kinetic_at (eval_at (K e) (t e)) p l
                - least (kinetic_sums e)) * (- q))).
Proof.
  intros Hp Hl. unfold kinetic_kernel, weights.
  rewrite array_min_least. unfold ndarray in *.
  rewrite list_lookup_fmap, lookup_zip_with, Hp, Hl. reflexivity.
Qed.

Section OneParent.
Variable parent_init : dict R -> result (@Engine R).

(** X9: the kernels compound to the Boltzmann weight at the requested
    temperature, whatever increment was asked for.  In exact arithmetic,
    after a completed construction from a positive increment over a grid
    of one shape, each entry of the kinetic kernel raised to the power
    num_beta_steps is exp(-(S_K - min S_K) / kT), and each entry of the
    potential kernel, which a step applies twice, raised to the power
    2 * num_beta_steps is exp(-(S_V - min S_V) / kT) times the same power
    of the absorbing boundary. *)
Theorem X9_kernels_compound_to_the_Boltzmann_weight
    (s : @state R) (params : loc) (m : dict R) (d0 : R) (e : @Engine R) :
  heap s !! params = Some m ->
  initial_dbeta m = VFloat d0 ->
  0 < d0 ->
  let out := WignerBlochFFTW1D parent_init params s in
  out.2 = Ok tt ->
  engine (self out.1) = Some e ->
  well_shaped e ->
  exists (k : R) (n : Z) (kv kk : list R),
    kT (self out.1) = Some (VFloat k)
    /\ num_beta_steps (self out.1) = Some (NInt n)
    /\ _expV (self out.1) = Some kv
    /\ _expK (self out.1) = Some kk
    /\ (forall j p l,
          P e !! j = Some p -> Lambda e !! j = Some l ->
          exists w, kk !! j = Some w
            /\ w ^ Z.to_nat n
               = exp (- (kinetic_at (eval_at (K e) (t e)) p l
                         - least (kinetic_sums e)) / k))
    /\ (forall i x th b,
          X e !! i = Some x -> Theta e !! i = Some th ->
          abs_boundary e !! i = Some b ->
          exists w, kv !! i = Some w
            /\ w ^ (2 * Z.to_nat n)
               = exp (- (potential_at (eval_at (V e) (t e)) x th
                         - least (potential_sums e)) / k)
                 * b ^ (2 * Z.to_nat n)).
Proof.
  intros Hm Hd Hd0 out Hok He Hshape.
  destruct (completed_schedule Hm Hok)
    as (b & d0' & Hrun & _ & Hk & Hd' & Hk0 & Hr).
  assert (d0' = d0) as -> by congruence.
  destruct (resolved_schedule_inv Hk0 Hr) as (_ & _ & Hprod & _ & _ & Hpos & _).
  destruct (Hpos Hd0) as [Hn Hq].
  assert (Hdb : dbeta (self out.1) = Some (VFloat (b_dbeta b)))
    by (subst out; rewrite Hrun; reflexivity).
  destruct (completed_kernels Hm Hok He Hdb Hshape) as [HV HK].
  exists (b_kT b), (b_steps b), (potential_kernel (b_dbeta b) e),
    (kinetic_kernel (b_dbeta b) e).
  assert (HN : INR (Z.to_nat (b_steps b)) = IZR (b_steps b)).
  { rewrite INR_IZR_INZ, Z2Nat.id by lia. reflexivity. }
  split_and!; try assumption.
  - subst out. rewrite Hrun. reflexivity.
  - subst out. rewrite Hrun. reflexivity.
  - intros j p l Hp Hl. eexists. split; [apply (kinetic_kernel_lookup _ Hp Hl)|].
    rewrite exp_pow_nat, HN. f_equal.
    set (u := kinetic_at _ _ _ - _).
    apply Rmult_eq_reg_r with (b_kT b); [|lra].
    replace (IZR (b_steps b) * (u * - b_dbeta b) * b_kT b)
      with (- u * (IZR (b_steps b) * b_dbeta b * b_kT b)) by ring.
    rewrite Hprod. field. lra.
  - intros i x th bd Hx Hth Hb. eexists.
    split; [apply (potential_kernel_lookup _ Hx Hth Hb)|].
    rewrite Rpow_mult_distr. f_equal.
    rewrite exp_pow_nat, mult_INR, HN. f_equal.
    set (u := potential_at _ _ _ - _).
    replace (INR 2) with 2 by (cbn; lra).
    apply Rmult_eq_reg_r with (b_kT b); [|lra].
    replace (2 * IZR (b_steps b) * (u * (- b_dbeta b * (1 / 2))) * b_kT b)
      with (- u * (IZR (b_steps b) * b_dbeta b * b_kT b)) by field.
    rewrite Hprod. field. lra.
Qed.

(** X10: the potential kernel never exceeds the absorbing boundary.  In
    exact arithmetic, after a completed construction from a positive
    increment over a grid of one shape, the kernel has one entry per grid
    point, each of magnitude at most that of the mask there; where the
    mask is nonnegative the entry lies between 0 and the mask, and where
    the mask is 0 so is the kernel. *)
Theorem X10_masked_kernel_is_bounded_by_the_mask
    (s : @state R) (params : loc) (m : dict R) (d0 : R) (e : @Engine R) :
  heap s !! params = Some m ->
  initial_dbeta m = VFloat d0 ->
  0 < d0 ->
  let out := WignerBlochFFTW1D parent_init params s in
  out.2 = Ok tt ->
  engine (self out.1) = Some e ->
  well_shaped e ->
  exists kv : list R,
    _expV (self out.1) = Some kv
    /\ length kv = length (X e)
    /\ forall i b w,
         abs_boundary e !! i = Some b -> kv !! i = Some w ->
         Rabs w <= Rabs b
         /\ (0 <= b -> 0 <= w <= b)
         /\ (b = 0 -> w = 0).
Proof.
  intros Hm Hd Hd0 out Hok He Hshape.
  destruct (completed_schedule Hm Hok)
    as (b & d0' & Hrun & _ & Hk & Hd' & Hk0 & Hr).
  assert (d0' = d0) as -> by congruence.
  destruct (resolved_schedule_inv Hk0 Hr) as (_ & _ & _ & _ & _ & Hpos & _).
  destruct (Hpos Hd0) as [_ Hq].
  assert (Hdb : dbeta (self out.1) = Some (VFloat (b_dbeta b)))
    by (subst out; rewrite Hrun; reflexivity).
  destruct (completed_kernels Hm Hok He Hdb Hshape) as [HV _].
  exists (potential_kernel (b_dbeta b) e). split; [exact HV|].
  destruct Hshape as (HX & HT & HB & _).
  split.
  { unfold potential_kernel, weights.
    rewrite length_zip_with, length_map, length_zip_with. lia. }
  intros i bd w Hb Hw. unfold potential_kernel in Hw.
  assert (Hne : zip_with (potential_at (eval_at (V e) (t e))) (X e) (Theta e) <> [])
    by (apply zip_with_nonempty; congruence).
  assert (Hcoef : - b_dbeta b * (1 / 2) < 0) by lra.
  destruct (weights_unit_peaked Hcoef Hne) as [Hall _].
  change (- b_dbeta b * (1 / 2)) with (f_mul (f_opp (b_dbeta b)) f_half) in Hall.
  set (ws := weights (f_mul (f_opp (b_dbeta b)) f_half) _) in *.
  unfold ndarray in *. rewrite lookup_zip_with in Hw.
  destruct (ws !! i) as [r|] eqn:Hr'; [|discriminate].
  cbn in Hw. rewrite Hb in Hw. cbn in Hw. injection Hw as <-.
  assert (Hin : In r ws).
  { apply list_elem_of_In, list_elem_of_lookup. exists i. exact Hr'. }
  specialize (Hall r Hin).
  split_and!.
  - rewrite Rabs_mult, (Rabs_right r) by lra.
    pose proof (Rabs_pos bd). nra.
  - intros Hb0. nra.
  - intros ->. ring.
Qed.

(** X13: for the harmonic oscillator of the example (lines 142 and 145)
    the cached kernels are Gaussians.  In exact arithmetic, over a grid of
    one shape that contains the origin of (X, Theta) and of (P, Lambda),
    the potential kernel at (x, theta) is
    exp(-dbeta * omega^2 * (x^2 + theta^2/4) / 2) times the absorbing
    boundary, and the kinetic kernel at (p, lambda) is
    exp(-dbeta * (p^2 + lambda^2/4)). *)
Theorem X13_oscillator_kernels_are_gaussians
    (s : @state R) (params : loc) (m : dict R) (omega q : R) (e : @Engine R) :
  heap s !! params = Some m ->
  let out := WignerBlochFFTW1D parent_init params s in
  out.2 = Ok tt ->
  engine (self out.1) = Some e ->
  dbeta (self out.1) = Some (VFloat q) ->
  well_shaped e ->
  V e = oscillator_V omega -> K e = oscillator_K ->
  (exists i0, X e !! i0 = Some 0 /\ Theta e !! i0 = Some 0) ->
  (exists j0, P e !! j0 = Some 0 /\ Lambda e !! j0 = Some 0) ->
  exists kv kk : list R,
    _expV (self out.1) = Some kv
    /\ _expK (self out.1) = Some kk
    /\ (forall i x th b,
          X e !! i = Some x -> Theta e !! i = Some th ->
          abs_boundary e !! i = Some b ->
          kv !! i = Some (exp (- q * omega ^ 2 * (x ^ 2 + th ^ 2 / 4) / 2) * b))
    /\ (forall j p l,
          P e !! j = Some p -> Lambda e !! j = Some l ->
          kk !! j = Some (exp (- q * (p ^ 2 + l ^ 2 / 4)))).
Proof.
  intros Hm out Hok He Hdb Hshape HV HK (i0 & Hx0 & Ht0) (j0 & Hp0 & Hl0).
  destruct (completed_kernels Hm Hok He Hdb Hshape) as [HkV HkK].
  exists (potential_kernel q e), (kinetic_kernel q e).
  split; [exact HkV|]. split; [exact HkK|].
  unfold ndarray in *.
  assert (HsumV : forall x th,
            potential_at (eval_at (V e) (t e)) x th
            = omega ^ 2 * (x ^ 2 + th ^ 2 / 4)).
  { intros x th. rewrite HV. unfold potential_at. cbn. field. }
  assert (HsumK : forall p l,
            kinetic_at (eval_at (K e) (t e)) p l = p ^ 2 + l ^ 2 / 4).
  { intros p l. rewrite HK. unfold kinetic_at. cbn. field. }
  assert (HleastV : least (potential_sums e) = 0).
  { apply Rle_antisym.
    - apply least_le. apply list_elem_of_In, list_elem_of_lookup. exists i0.
      unfold potential_sums. rewrite lookup_zip_with, Hx0, Ht0.
      cbn [mbind option_bind]. rewrite HsumV. f_equal. field.
    - assert (Hne : potential_sums e <> []).
      { intros H. unfold potential_sums in H.
        apply (f_equal (fun l => l !! i0)) in H.
        rewrite lookup_zip_with, Hx0, Ht0 in H. discriminate. }
      pose proof (least_in Hne) as Hin.
      apply list_elem_of_In, list_elem_of_lookup in Hin as [i Hi].
      unfold potential_sums in Hi at 1. rewrite lookup_zip_with in Hi.
      match type of Hi with ?o ≫= _ = _ => destruct o as [x|] end;
        cbn [mbind option_bind] in Hi; [|discriminate].
      match type of Hi with ?o ≫= _ = _ => destruct o as [th|] end;
        cbn [mbind option_bind] in Hi; [|discriminate].
      injection Hi as Hi.
      change (potential_at (eval_at (V e) (t e)) x th = least (potential_sums e)) in Hi.
      rewrite <- Hi, HsumV.
      pose proof (pow2_ge_0 omega). pose proof (pow2_ge_0 x).
      pose proof (pow2_ge_0 th). nra. }
  assert (HleastK : least (kinetic_sums e) = 0).
  { apply Rle_antisym.
    - apply least_le. apply list_elem_of_In, list_elem_of_lookup. exists j0.
      unfold kinetic_sums. rewrite lookup_zip_with, Hp0, Hl0.
      cbn [mbind option_bind]. rewrite HsumK. f_equal. field.
    - assert (Hne : kinetic_sums e <> []).
      { intros H. unfold kinetic_sums in H.
        apply (f_equal (fun l => l !! j0)) in H.
        rewrite lookup_zip_with, Hp0, Hl0 in H. discriminate. }
      pose proof (least_in Hne) as Hin.
      apply list_elem_of_In, list_elem_of_lookup in Hin as [j Hj].
      unfold kinetic_sums in Hj at 1. rewrite lookup_zip_with in Hj.
      match type of Hj with ?o ≫= _ = _ => destruct o as [p|] end;
        cbn [mbind option_bind] in Hj; [|discriminate].
      match type of Hj with ?o ≫= _ = _ => destruct o as [l|] end;
        cbn [mbind option_bind] in Hj; [|discriminate].
      injection Hj as Hj.
      change (kinetic_at (eval_at (K e) (t e)) p l = least (kinetic_sums e)) in Hj.
      rewrite <- Hj, HsumK.
      pose proof (pow2_ge_0 p). pose proof (pow2_ge_0 l). nra. }
  split.
  - intros i x th b Hx Hth Hb.
    rewrite (potential_kernel_lookup _ Hx Hth Hb), HleastV, HsumV.
    do 3 f_equal. field.
  - intros j p l Hp Hl.
    rewrite (kinetic_kernel_lookup _ Hp Hl), HleastK, HsumK.
    do 2 f_equal. ring.
Qed.

End OneParent.

Section TwoParents.
Variable parent1 parent2 : dict R -> result (@Engine R).


End TwoParents.

End RealKernelProperties.

(** ** The Hamiltonian of the example *)

Section ExampleHamiltonian.
Local Open Scope R_scope.

(** X18: the derivatives the example supplies are those of its energies:
    at every point, [diff_K] is the derivative of K = 0.5 * p ** 2 and
    [diff_V] is the derivative of V = 0.5 * omega ** 2 * x ** 2, for every
    omega. *)
Theorem X18_example_derivatives_match_the_energies (omega time x : R) :
  derivable_pt_lim (eval_at oscillator_K time) x
    (eval_at oscillator_diff_K time x)
  /\ derivable_pt_lim (eval_at (oscillator_V omega) time) x
       (eval_at (oscillator_diff_V omega) time x).
Proof.
  cbn [eval_at oscillator_K oscillator_V oscillator_diff_K oscillator_diff_V].
  split.
  - replace x with (1 / 2 * (INR 2 * x ^ Init.Nat.pred 2)) at 2
      by (cbn; field).
    apply (derivable_pt_lim_scal (fun y => y ^ 2) (1 / 2) x).
    apply derivable_pt_lim_pow.
  - replace (omega ^ 2 * x)
      with (1 / 2 * omega ^ 2 * (INR 2 * x ^ Init.Nat.pred 2))
      by (cbn; field).
    apply (derivable_pt_lim_scal (fun y => y ^ 2) (1 / 2 * omega ^ 2) x).
    apply derivable_pt_lim_pow.
Qed.

End ExampleHamiltonian.

(** ** Special values of binary64 *)

(** Line 108 sets the distribution to [initial_distribution] on the grid. *)
Lemma get_gibbs_state_initial {F : Type} {FO : FloatOps F} {EO : ExpOps F}
    (to_dual from_dual : @ndarray F -> @ndarray F) :
  get_gibbs_state to_dual from_dual
  = (set_wignerfunction initial_distribution;;
     n ← getattr "num_beta_steps" num_beta_steps;
     propagate to_dual from_dual n).
Proof. reflexivity. Qed.

Section Binary64Distribution.
Import Binary64.

Lemma SFcompare_refl_finite (s : bool) (m : positive) (e : Z) :
  SFcompare (S754_finite s m e) (S754_finite s m e) = Some Eq.
Proof.
  cbn. rewrite Z.compare_refl, Pos.compare_cont_refl. destruct s; reflexivity.
Qed.

(** A float is finite exactly when it denotes a zero or a finite number. *)
Lemma is_finite_spec (x : float) :
  PrimFloat.is_finite x
  = match Prim2SF x with
    | S754_zero _ | S754_finite _ _ _ => true
    | _ => false
    end.
Proof.
  unfold PrimFloat.is_finite, PrimFloat.is_nan, PrimFloat.is_infinity.
  rewrite !FloatAxioms.eqb_spec, FloatAxioms.abs_spec.
  change (Prim2SF infinity) with (S754_infinity false).
  destruct (Prim2SF x) as [s|s| |s m e]; unfold SFeqb.
  - reflexivity.
  - destruct s; reflexivity.
  - reflexivity.
  - rewrite SFcompare_refl_finite. reflexivity.
Qed.

Lemma is_nan_spec (x : float) :
  Prim2SF x = S754_nan -> PrimFloat.is_nan x = true.
Proof.
  intros H. unfold PrimFloat.is_nan. rewrite FloatAxioms.eqb_spec, H. reflexivity.
Qed.

(** X14: on binary64 the initial distribution of line 108,
    [0*x + 0*p + 1.], is exactly 1.0 wherever both coordinates are finite,
    and NaN wherever one of them is infinite or NaN. *)
Theorem X14_initial_distribution_on_binary64 (x p : float) :
  (PrimFloat.is_finite x && PrimFloat.is_finite p = true ->
   initial_distribution x p = 1%float)
  /\ (PrimFloat.is_finite x && PrimFloat.is_finite p = false ->
      PrimFloat.is_nan (initial_distribution x p) = true).
Proof.
  rewrite !is_finite_spec.
  unfold initial_distribution. cbn [f_add f_mul f_zero f_one ops].
  assert (H : Prim2SF (0 * x + 0 * p + 1)%float
              = SF64add (SF64add (SF64mul (Prim2SF 0%float) (Prim2SF x))
                                 (SF64mul (Prim2SF 0%float) (Prim2SF p)))
                        (Prim2SF 1%float))
    by (rewrite !FloatAxioms.add_spec, !FloatAxioms.mul_spec; reflexivity).
  change (Prim2SF 0%float) with (S754_zero false) in H.
  split.
  - intros Hfin. apply Prim2SF_inj. rewrite H.
    destruct (Prim2SF x) as [sx|sx| |sx mx ex]; try discriminate;
      destruct (Prim2SF p) as [sp|sp| |sp mp ep]; try discriminate;
      destruct sx, sp; reflexivity.
  - intros Hinf. apply is_nan_spec. rewrite H.
    destruct (Prim2SF x) as [sx|sx| |sx mx ex];
      destruct (Prim2SF p) as [sp|sp| |sp mp ep]; try discriminate;
      try reflexivity; destruct sx; try reflexivity; destruct sp; reflexivity.
Qed.

End Binary64Distribution.

Section Binary64Edges.
Import Binary64.
Context {EO : ExpOps float}.
Variable parent_init : dict float -> result (@Engine float).

Lemma positive_finite (d : float) :
  PrimFloat.is_finite d = true -> PrimFloat.ltb 0 d = true ->
  exists m e, Prim2SF d = S754_finite false m e.
Proof.
  rewrite is_finite_spec, FloatAxioms.ltb_spec.
  change (Prim2SF 0%float) with (S754_zero false).
  destruct (Prim2SF d) as [s|s| |s m e]; try discriminate.
  destruct s; [discriminate|]. intros _ _. exists m, e. reflexivity.
Qed.

(** With an infinite temperature the quotient of line 35 is 0.0. *)
Lemma infinite_temperature_quotient (d : float) :
  PrimFloat.is_finite d = true -> PrimFloat.ltb 0 d = true ->
  (infinity * d)%float = infinity /\ (1 / (infinity * d))%float = 0%float.
Proof.
  intros Hfin Hpos. destruct (positive_finite Hfin Hpos) as (m & e & Hd).
  assert (H : (infinity * d)%float = infinity).
  { apply Prim2SF_inj. rewrite FloatAxioms.mul_spec, Hd. reflexivity. }
  split; [exact H|]. rewrite H. reflexivity.
Qed.

Lemma infinite_temperature_schedule (d : float) :
  PrimFloat.is_finite d = true -> PrimFloat.ltb 0 d = true ->
  resolved_schedule infinity d = Ok (d, 0%Z).
Proof.
  intros Hfin Hpos.
  destruct (infinite_temperature_quotient Hfin Hpos) as [Hprod Hquot].
  unfold resolved_schedule, py_div. cbn [f_mul f_eqb f_zero f_one f_div ops].
  rewrite Hprod.
  change (PrimFloat.eqb infinity 0) with false. cbv iota.
  cbn [mbind result_bind rbind].
  change (PrimFloat.div 1 infinity) with 0%float.
  reflexivity.
Qed.

(** X16: on binary64 an infinite temperature does not divide by zero:
    with any finite positive increment the quotient of line 35 is 0.0,
    which [round] leaves alone, so the increment is kept, num_beta_steps is
    0, and the construction completes on any grid of one shape. *)
Theorem X16_infinite_temperature_takes_no_step
    (s : @state float) (params : loc) (m : dict float) (d0 : float)
    (e : @Engine float) :
  heap s !! params = Some m ->
  m !! "kT" = Some (VFloat infinity) ->
  initial_dbeta m = VFloat d0 ->
  PrimFloat.is_finite d0 = true -> PrimFloat.ltb 0 d0 = true ->
  parent_init (parent_kwargs d0 m) = Ok e ->
  well_shaped e ->
  let out := WignerBlochFFTW1D parent_init params s in
  out.2 = Ok tt
  /\ dbeta (self out.1) = Some (VFloat d0)
  /\ num_beta_steps (self out.1) = Some (NInt 0).
Proof.
  intros Hm Hk Hd Hfin Hpos He Hshape out. subst out.
  assert (Hs : schedule_value (VFloat infinity) m = Ok (infinity, d0, 0%Z)).
  { unfold schedule_value. rewrite Hd.
    change (py_gt_zero (VFloat infinity)) with true. cbv iota.
    rewrite (infinite_temperature_schedule Hfin Hpos). reflexivity. }
  rewrite (construct_on_grid Hm Hk Hs He Hshape). cbn.
  split_and!; reflexivity.
Qed.



Lemma is_nan_inv (x : float) : PrimFloat.is_nan x = true -> x = nan.
Proof.
  intros H. apply Prim2SF_inj. change (Prim2SF nan) with S754_nan.
  revert H. unfold PrimFloat.is_nan. rewrite FloatAxioms.eqb_spec.
  destruct (Prim2SF x) as [s|s| |s m e]; unfold SFeqb.
  - discriminate.
  - destruct s; discriminate.
  - reflexivity.
  - rewrite SFcompare_refl_finite. discriminate.
Qed.

Lemma mul_nan (k : float) : (k * nan)%float = nan.
Proof.
  apply Prim2SF_inj. rewrite FloatAxioms.mul_spec.
  change (Prim2SF nan) with S754_nan.
  destruct (Prim2SF k); reflexivity.
Qed.

Lemma nan_increment_schedule (k : float) :
  resolved_schedule k nan = Raise (ValueError nan_to_int).
Proof.
  unfold resolved_schedule, py_div.
  cbn [f_mul f_eqb f_zero f_one f_div ops]. rewrite mul_nan.
  change (PrimFloat.eqb nan 0) with false. cbv iota.
  cbn [mbind result_bind rbind].
  change (PrimFloat.div 1 nan) with nan.
  change (py_round nan) with nan.
  change (f_eqb nan nan) with false. cbn [negb]. cbv iota.
  cbn [f_mul f_eqb f_zero f_one f_div ops]. rewrite mul_nan.
  change (PrimFloat.eqb nan 0) with false. cbv iota.
  reflexivity.
Qed.

(** X17: NaN on binary64.  A NaN temperature fails the test of line 27
    and ends in the [TypeError] of line 45, before an increment is read; a
    NaN increment with a positive temperature passes every division and
    is stopped by [int()] in line 42 with [ValueError], before the parent
    constructor and the kernels. *)
Theorem X17_nan_inputs_on_binary64
    (s : @state float) (params : loc) (m : dict float) (k d0 : float) :
  heap s !! params = Some m ->
  m !! "kT" = Some (VFloat k) ->
  initial_dbeta m = VFloat d0 ->
  let out := WignerBlochFFTW1D parent_init params s in
  (PrimFloat.is_nan k = true ->
   out.2 = Raise (TypeError not_callable)
   /\ dbeta (self out.1) = None /\ engine (self out.1) = None)
  /\ (PrimFloat.ltb 0 k = true -> PrimFloat.is_nan d0 = true ->
      out.2 = Raise (ValueError nan_to_int)
      /\ engine (self out.1) = None
      /\ _expV (self out.1) = None /\ _expK (self out.1) = None).
Proof.
  intros Hm Hk Hd out. subst out. split.
  - intros Hnan. apply is_nan_inv in Hnan. subst k.
    rewrite (@construct_unsupported float ops _ parent_init s params m nan Hm Hk
               (eq_refl : PrimFloat.ltb 0 nan = false)).
    split_and!; reflexivity.
  - intros Hpos Hnan. apply is_nan_inv in Hnan. subst d0.
    assert (Hs : schedule_value (VFloat k) m = Raise (ValueError nan_to_int)).
    { unfold schedule_value. cbn [py_gt_zero f_ltb f_zero ops].
      rewrite Hpos, Hd, nan_increment_schedule. reflexivity. }
    destruct (construct_schedule_raises parent_init Hm Hk Hs)
      as (s' & Hrun & Hh & Hout & HkT & Hen & HV & HK & _).
    rewrite Hrun. cbn [fst snd]. split_and!; try reflexivity; assumption.
Qed.

End Binary64Edges.

(** ** The kernels on binary64 *)

Section Binary64Kernels.
Import Binary64.
Variable libm : float -> float.








End Binary64Kernels.

Section RawKernels.
Import Binary64.


End RawKernels.


(** ** Examples on the toy grid *)

Lemma C5_witness :
  (WignerBlochFFTW1D (toy_parent harmonic harmonic) 1%positive
     (boot {["kT" := VFloat 0%R]})).2
  = Raise (TypeError not_callable).
Proof.
  refine (proj1 (@C5_nonpositive_kT_raises_TypeError
                   (toy_parent harmonic harmonic)
                   (boot {["kT" := VFloat 0%R]}) 1%positive
                   {["kT" := VFloat 0%R]} 0%R _ _ _)).
  - reflexivity.
  - reflexivity.
  - lra.
Defined.

Lemma C6_witness :
  (WignerBlochFFTW1D (toy_parent harmonic harmonic) 1%positive
     (boot (∅ : dict R))).2
  = Raise (AttributeError no_temperature).
Proof.
  refine (proj1 (@C6_missing_kT_raises_before_kernels R _ _
                   (toy_parent harmonic harmonic)
                   (boot ∅) 1%positive ∅ _ _)).
  - reflexivity.
  - reflexivity.
Defined.

Lemma C7_witness :
  let out := WignerBlochFFTW1D (toy_parent driven harmonic) 1%positive
               (boot toy_kwargs) in
  out.2 = Ok tt /\ In (Printed warn_potential 0%R) (stdout out.1).
Proof.
  pose proof (@C7_time_dependent_terms_are_taken_at_t R _ _
                (toy_parent driven harmonic) (boot toy_kwargs) 1%positive
                toy_kwargs 1%R (1 / 4)%R 4
                (toy_engine driven harmonic (1 / 4)%R)
                eq_refl eq_refl toy_schedule eq_refl
                (toy_well_shaped driven harmonic (1 / 4)%R))
    as (Hok & _ & _ & _ & HV & _).
  split; [exact Hok | exact (proj2 (HV _ eq_refl))].
Defined.

(** C10 as stated fails: after a completed construction from a dictionary
    with dt = 5, the resolved increment is 1/4 and the parent has been
    given dt = 1/4, but the caller's dictionary still reads dt = 5: it has
    not been mutated. *)
Lemma C10_counterexample :
  let out := WignerBlochFFTW1D (toy_parent harmonic harmonic) 1%positive
               (boot toy_kwargs) in
  out.2 = Ok tt
  /\ dbeta (self out.1) = Some (VFloat (1 / 4)%R)
  /\ heap out.1 !! 1%positive = Some toy_kwargs
  /\ toy_kwargs !! "dt" = Some (VFloat 5%R)
  /\ ~ (exists d : dict R,
          heap out.1 !! 1%positive = Some d
          /\ d !! "dt" = Some (VFloat (1 / 4)%R)).
Proof.
  cbv zeta. rewrite toy_constructs.
  destruct (@after_construction_params R (boot toy_kwargs) 1%positive
              toy_kwargs (toy_built harmonic harmonic) eq_refl)
    as [_ Hkeep].
  cbn [fst snd]. split_and!; try reflexivity; try exact Hkeep.
  intros (d & Hd & Hdt).
  pose proof (eq_trans (eq_sym Hkeep) Hd) as Heq. injection Heq as <-.
  change (toy_kwargs !! "dt") with (Some (@VFloat R 5%R)) in Hdt.
  injection Hdt as Hdt. lra.
Qed.

Lemma C10_witness :
  exists (q : R) (e : @Engine R),
    toy_parent harmonic harmonic (parent_kwargs q toy_kwargs) = Ok e
    /\ parent_kwargs q toy_kwargs !! "dt" = Some (VFloat q).
Proof.
  assert (Hok : (WignerBlochFFTW1D (toy_parent harmonic harmonic) 1%positive
                   (boot toy_kwargs)).2 = Ok tt)
    by (rewrite toy_constructs; reflexivity).
  destruct (@C10_dt_forced_in_the_own_dictionary R _ _
              (toy_parent harmonic harmonic) (boot toy_kwargs) 1%positive
              toy_kwargs eq_refl Hok)
    as (q & e & _ & He & _ & Hdt & _).
  exists q, e. split; [exact He | exact Hdt].
Defined.

Lemma toy_out_ok : toy_out.2 = Ok tt.
Proof. unfold toy_out. rewrite toy_constructs. reflexivity. Qed.

Lemma toy_out_engine : engine (self toy_out.1) = Some toy_grid.
Proof. unfold toy_out. rewrite toy_constructs. reflexivity. Qed.

Lemma toy_out_dbeta : dbeta (self toy_out.1) = Some (VFloat (1 / 4)%R).
Proof. unfold toy_out. rewrite toy_constructs. reflexivity. Qed.

Lemma C2_witness :
  _expK (self toy_out.1)
  = Some (spec_kinetic_kernel (1 / 4) (fun x => (x * x / 2)%R)
            [-1; 0; 1]%R [0; 0; 0]%R).
Proof.
  exact (proj2 (@C2_kernels_follow_the_specified_formulas
                  (toy_parent harmonic harmonic) (boot toy_kwargs) 1%positive
                  toy_kwargs eq_refl toy_out_ok toy_grid (1 / 4)%R
                  toy_out_engine toy_out_dbeta
                  (toy_well_shaped harmonic harmonic (1 / 4)%R))).
Defined.





Lemma C4_witness :
  exists w : list R,
    (get_gibbs_state (fun a => a) (fun a => a) toy_out.1).2 = Ok w
    /\ w = Nat.iter 4 (gibbs_step (fun a => a) (fun a => a)
                         (potential_kernel (1 / 4)%R toy_grid)
                         (kinetic_kernel (1 / 4)%R toy_grid))
                    [1; 1; 1]%R.
Proof.
  destruct (@C4_gibbs_state_is_the_flat_distribution_propagated
              (toy_parent harmonic harmonic) (fun a => a) (fun a => a)
              (fun a => eq_refl) (fun a => eq_refl)
              (boot toy_kwargs) 1%positive toy_kwargs eq_refl toy_out_ok
              toy_grid toy_out_engine
              (toy_well_shaped harmonic harmonic (1 / 4)%R) eq_refl)
    as (n & kv & kk & s1 & Hn & Hkv & Hkk & _ & _ & s2 & e2 & _ & Hg & _).
  fold toy_out in Hn, Hkv, Hkk, Hg.
  unfold toy_out in Hn, Hkv, Hkk. rewrite toy_constructs in Hn, Hkv, Hkk.
  cbn in Hn, Hkv, Hkk.
  injection Hn as <-. injection Hkv as <-. injection Hkk as <-.
  eexists. split; [rewrite Hg; reflexivity | reflexivity].
Defined.

Lemma C8_witness :
  exists e, engine (self toy_out.1) = Some e /\ isEhrenfest e = false.
Proof.
  destruct (@C8_ehrenfest_bookkeeping_stays_off R _ _
              (fun a => a) (fun a => a) (toy_parent harmonic harmonic)
              (boot toy_kwargs) 1%positive toy_kwargs eq_refl toy_out_ok)
    as (e & He & Hflag & _).
  exists e. split; assumption.
Defined.

Lemma toy_busy_constructs :
  toy_out_busy
  = (after_construction busy toy_kwargs (toy_built harmonic harmonic), Ok tt).
Proof.
  pose proof (@construct_total R _ _ (toy_parent harmonic harmonic)
                busy 7%positive toy_kwargs eq_refl) as H.
  rewrite toy_value in H. exact H.
Qed.

Lemma toy_out_busy_ok : toy_out_busy.2 = Ok tt.
Proof. rewrite toy_busy_constructs. reflexivity. Qed.

Lemma toy_out_busy_engine : engine (self toy_out_busy.1) = Some toy_grid.
Proof. rewrite toy_busy_constructs. reflexivity. Qed.

Lemma C9_witness :
  exists kv kk : list R,
    _expV (self toy_out.1) = Some kv /\ _expV (self toy_out_busy.1) = Some kv
    /\ _expK (self toy_out.1) = Some kk /\ _expK (self toy_out_busy.1) = Some kk.
Proof.
  destruct (@C9_kernels_depend_on_their_inputs_only R _ _
              (toy_parent harmonic harmonic) (toy_parent harmonic harmonic)
              (boot toy_kwargs) busy 1%positive 7%positive
              toy_kwargs toy_kwargs eq_refl eq_refl eq_refl eq_refl
              toy_out_ok toy_out_busy_ok toy_grid toy_grid
              toy_out_engine toy_out_busy_engine
              eq_refl eq_refl eq_refl eq_refl eq_refl eq_refl eq_refl
              (or_intror (conj eq_refl eq_refl)))
    as (kv & kk & q & n & HV1 & HV2 & HK1 & HK2 & _).
  exists kv, kk. split_and!; assumption.
Defined.

Lemma toy_at_constructs (time : R) (V0 K0 : @callable R) :
  let e := set_isEhrenfest false (toy_engine_at time V0 K0 (1 / 4)%R) in
  WignerBlochFFTW1D (toy_parent_at time V0 K0) 1%positive (boot toy_kwargs)
  = (after_construction (boot toy_kwargs) toy_kwargs
       (mkBuilt 1%R (1 / 4)%R 4 e
          (potential_kernel (1 / 4)%R e) (kinetic_kernel (1 / 4)%R e)
          (warning V0 warn_potential time ++ warning K0 warn_kinetic time)%list),
     Ok tt).
Proof.
  cbv zeta.
  apply (@construct_on_grid R _ _ (toy_parent_at time V0 K0) (boot toy_kwargs)
           1%positive toy_kwargs 1%R (1 / 4)%R 4
           (toy_engine_at time V0 K0 (1 / 4)%R)
           eq_refl eq_refl toy_schedule eq_refl).
  unfold well_shaped. cbn. split_and!; congruence.
Qed.

(** C9 as stated fails: the time of the object is missing from its list
    of inputs.  Two completed constructions from the same kT and dbeta,
    over the same grid and absorbing boundary, with the same
    time-dependent potential V(x, t) = x^2/2 + t*x and the same kinetic
    energy, one at t = 0 and one at t = 1, cache different potential
    kernels: at the first grid point exp(-1/8) and 1. *)
Lemma C9_counterexample :
  let out0 := WignerBlochFFTW1D (toy_parent_at 0 driven harmonic) 1%positive
                (boot toy_kwargs) in
  let out1 := WignerBlochFFTW1D (toy_parent_at 1 driven harmonic) 1%positive
                (boot toy_kwargs) in
  out0.2 = Ok tt /\ out1.2 = Ok tt
  /\ (exists e0 e1 : @Engine R,
        engine (self out0.1) = Some e0 /\ engine (self out1.1) = Some e1
        /\ X e0 = X e1 /\ P e0 = P e1
        /\ Theta e0 = Theta e1 /\ Lambda e0 = Lambda e1
        /\ V e0 = V e1 /\ K e0 = K e1
        /\ abs_boundary e0 = abs_boundary e1
        /\ t e0 = 0%R /\ t e1 = 1%R)
  /\ kT (self out0.1) = kT (self out1.1)
  /\ dbeta (self out0.1) = dbeta (self out1.1)
  /\ (exists kv0 kv1 : list R,
        _expV (self out0.1) = Some kv0 /\ _expV (self out1.1) = Some kv1
        /\ kv0 !! 0%nat = Some (exp (- (1 / 8)))%R
        /\ kv1 !! 0%nat = Some 1%R)
  /\ _expV (self out0.1) <> _expV (self out1.1).
Proof.
  cbv zeta. rewrite !toy_at_constructs. cbn [fst snd].
  cbn [after_construction self instance_of engine kT dbeta _expV b_kT b_dbeta
       b_engine b_expV].
  set (e0 := set_isEhrenfest false (toy_engine_at 0 driven harmonic (1 / 4)%R)).
  set (e1 := set_isEhrenfest false (toy_engine_at 1 driven harmonic (1 / 4)%R)).
  assert (Hl0 : least (potential_sums e0) = 0%R).
  { unfold least, potential_sums, potential_at. cbn. unfold Rmin.
    repeat destruct (Rle_dec _ _); lra. }
  assert (Hl1 : least (potential_sums e1) = (-1)%R).
  { unfold least, potential_sums, potential_at. cbn. unfold Rmin.
    repeat destruct (Rle_dec _ _); lra. }
  assert (H0 : potential_kernel (1 / 4)%R e0 !! 0%nat
               = Some (exp (- (1 / 8)))%R).
  { rewrite (@potential_kernel_lookup (1 / 4)%R e0 0%nat (-1)%R 0%R 1%R
               eq_refl eq_refl eq_refl), Hl0.
    f_equal. rewrite Rmult_1_r. f_equal.
    unfold potential_at. cbn. lra. }
  assert (H1 : potential_kernel (1 / 4)%R e1 !! 0%nat = Some 1%R).
  { rewrite (@potential_kernel_lookup (1 / 4)%R e1 0%nat (-1)%R 0%R 1%R
               eq_refl eq_refl eq_refl), Hl1.
    f_equal. rewrite Rmult_1_r. rewrite <- exp_0. f_equal.
    unfold potential_at. cbn. lra. }
  split_and!; try reflexivity.
  - exists e0, e1. split_and!; reflexivity.
  - eexists _, _. split_and!; [reflexivity | reflexivity | exact H0 | exact H1].
  - intros Heq.
    assert (Hsame : potential_kernel (1 / 4)%R e0 = potential_kernel (1 / 4)%R e1)
      by congruence.
    rewrite Hsame, H1 in H0.
    assert (H0' : 1%R = exp (- (1 / 8))) by congruence.
    pose proof (exp_increasing (- (1 / 8)) 0 ltac:(lra)) as Hlt.
    rewrite exp_0 in Hlt. lra.
Qed.


(** ** Further examples *)

Lemma X1_witness :
  exists (k q : R) (n : Z),
    kT (self toy_out.1) = Some (VFloat k) /\ (IZR n * q * k = 1)%R.
Proof.
  destruct (@X1_completed_schedule_covers_the_range
              (toy_parent harmonic harmonic) (boot toy_kwargs) 1%positive
              toy_kwargs eq_refl toy_out_ok)
    as (k & d0 & q & n & _ & _ & Hk & _ & _ & _ & _ & _ & Hprod & _).
  exists k, q, n. split; assumption.
Defined.

Lemma X2_witness :
  exists (q : R) (n : Z),
    num_beta_steps (self toy_out.1) = Some (NInt n)
    /\ (Rabs (q - 1 / 4) * (2 * Rabs (IZR n)) <= Rabs (1 / 4))%R.
Proof.
  destruct (@X2_steps_are_the_nearest_integer
              (toy_parent harmonic harmonic) (boot toy_kwargs) 1%positive
              toy_kwargs 1%R (1 / 4)%R eq_refl eq_refl eq_refl toy_out_ok)
    as (q & n & _ & Hn & _ & _ & _ & Hbound).
  exists q, n. split; assumption.
Defined.

Lemma X3_witness :
  (WignerBlochFFTW1D (toy_parent harmonic harmonic) 1%positive
     (boot coarse_kwargs)).2
  = Raise (ZeroDivisionError float_div_zero).
Proof.
  refine (proj1 (@X3_zero_or_coarse_increment_divides_by_zero
                   (toy_parent harmonic harmonic) (boot coarse_kwargs)
                   1%positive coarse_kwargs 1%R 3%R eq_refl eq_refl eq_refl
                   _ _)).
  - lra.
  - right. rewrite Rabs_right; lra.
Defined.

Lemma X4_witness :
  exists n : Z,
    (n <= -1)%Z
    /\ num_beta_steps
         (self (WignerBlochFFTW1D (toy_parent harmonic harmonic) 1%positive
                  (boot reversed_kwargs)).1)
       = Some (NInt n).
Proof.
  assert (H1 : (0 < 1)%R) by lra.
  assert (H2 : (- (1 / 4) < 0)%R) by lra.
  assert (H3 : (-2 <= 1 * - (1 / 4))%R) by lra.
  destruct (@X4_negative_increment_is_accepted
              (toy_parent harmonic harmonic) (boot reversed_kwargs) 1%positive
              reversed_kwargs 1%R (- (1 / 4))%R eq_refl eq_refl eq_refl
              H1 H2 H3)
    as (q & n & Hn & _ & _ & Hrun).
  destruct (Hrun (toy_engine harmonic harmonic q) eq_refl
              (toy_well_shaped harmonic harmonic q)) as (_ & _ & Hsteps).
  exists n. split; assumption.
Defined.

Lemma X5_witness :
  (WignerBlochFFTW1D (toy_parent harmonic harmonic) 1%positive
     (boot (<["dbeta" := VFloat (1 / 4)%R]> toy_kwargs))).2
  = Ok tt.
Proof.
  exact (proj1 (@X5_resolved_increment_is_a_fixed_point
                  (toy_parent harmonic harmonic) (boot toy_kwargs)
                  (boot (<["dbeta" := VFloat (1 / 4)%R]> toy_kwargs))
                  1%positive 1%positive toy_kwargs (1 / 4)%R
                  eq_refl toy_out_ok toy_out_dbeta eq_refl)).
Defined.

Lemma X6_witness :
  (WignerBlochFFTW1D (toy_parent harmonic harmonic) 1%positive
     (boot bare_kwargs)).2
  = (WignerBlochFFTW1D (toy_parent harmonic harmonic) 1%positive
       (boot spelled_kwargs)).2.
Proof.
  refine (proj1 (@X6_only_kT_the_increment_and_the_other_entries_matter
                   R _ _ (toy_parent harmonic harmonic)
                   (boot bare_kwargs) (boot spelled_kwargs)
                   1%positive 1%positive bare_kwargs spelled_kwargs
                   eq_refl eq_refl eq_refl eq_refl _)).
  intros key Hdb Hdt. unfold spelled_kwargs.
  rewrite !lookup_insert_ne by congruence. reflexivity.
Defined.

Lemma X7_witness :
  heap toy_out.1 !! 1%positive = Some toy_kwargs.
Proof.
  exact (proj1 (@X7_no_existing_dictionary_is_modified R _ _
                  (toy_parent harmonic harmonic) (boot toy_kwargs) 1%positive
                  toy_kwargs eq_refl)).
Defined.




Lemma X9_witness :
  exists (k : R) (n : Z) (kk : list R),
    _expK (self toy_out.1) = Some kk
    /\ exists w, kk !! 0%nat = Some w
         /\ (w ^ Z.to_nat n
             = exp (- (kinetic_at (fun x => x * x / 2) (-1) 0
                       - least (kinetic_sums toy_grid)) / k))%R.
Proof.
  assert (Hpos : (0 < 1 / 4)%R) by lra.
  destruct (@X9_kernels_compound_to_the_Boltzmann_weight
              (toy_parent harmonic harmonic) (boot toy_kwargs) 1%positive
              toy_kwargs (1 / 4)%R toy_grid eq_refl eq_refl Hpos toy_out_ok
              toy_out_engine (toy_well_shaped harmonic harmonic (1 / 4)%R))
    as (k & n & kv & kk & _ & _ & _ & HK & Hkin & _).
  exists k, n, kk. split; [exact HK|].
  exact (Hkin 0%nat (-1)%R 0%R eq_refl eq_refl).
Defined.

Lemma X10_witness :
  exists kv : list R,
    _expV (self toy_out.1) = Some kv /\ length kv = 3%nat.
Proof.
  assert (Hpos : (0 < 1 / 4)%R) by lra.
  destruct (@X10_masked_kernel_is_bounded_by_the_mask
              (toy_parent harmonic harmonic) (boot toy_kwargs) 1%positive
              toy_kwargs (1 / 4)%R toy_grid eq_refl eq_refl Hpos toy_out_ok
              toy_out_engine (toy_well_shaped harmonic harmonic (1 / 4)%R))
    as (kv & HV & Hlen & _).
  exists kv. split; assumption.
Defined.


Lemma X12_witness :
  exists n : Z,
    (100 <= n <= 1000)%Z
    /\ num_beta_steps
         (self (WignerBlochFFTW1D (toy_parent harmonic harmonic) 1%positive
                  (boot demo_kwargs)).1)
       = Some (NInt n).
Proof.
  assert (Hk : (1 / 10 <= 1 / 2 <= 1)%R) by lra.
  destruct (@X12_demo_temperatures_resolve
              (toy_parent harmonic harmonic) (boot demo_kwargs) 1%positive
              demo_kwargs (1 / 2)%R eq_refl eq_refl eq_refl Hk)
    as (q & n & Hn & _ & Hrun).
  destruct (Hrun (toy_engine harmonic harmonic q) eq_refl
              (toy_well_shaped harmonic harmonic q)) as (_ & _ & Hsteps).
  exists n. split; assumption.
Defined.

Lemma toy_oscillator_ok :
  (WignerBlochFFTW1D (toy_parent (oscillator_V 2) oscillator_K)
     1%positive (boot toy_kwargs)).2 = Ok tt.
Proof. rewrite toy_constructs. reflexivity. Qed.

Lemma toy_oscillator_engine :
  engine (self (WignerBlochFFTW1D (toy_parent (oscillator_V 2) oscillator_K)
                  1%positive (boot toy_kwargs)).1)
  = Some (set_isEhrenfest false
            (toy_engine (oscillator_V 2) oscillator_K (1 / 4)%R)).
Proof. rewrite toy_constructs. reflexivity. Qed.

Lemma toy_oscillator_dbeta :
  dbeta (self (WignerBlochFFTW1D (toy_parent (oscillator_V 2) oscillator_K)
                 1%positive (boot toy_kwargs)).1)
  = Some (VFloat (1 / 4)%R).
Proof. rewrite toy_constructs. reflexivity. Qed.

Lemma X13_witness :
  exists kk : list R,
    _expK (self (WignerBlochFFTW1D (toy_parent (oscillator_V 2) oscillator_K)
                   1%positive (boot toy_kwargs)).1) = Some kk
    /\ kk !! 2%nat = Some (exp (- (1 / 4) * (1 ^ 2 + 0 ^ 2 / 4)))%R.
Proof.
  destruct (@X13_oscillator_kernels_are_gaussians
              (toy_parent (oscillator_V 2) oscillator_K) (boot toy_kwargs)
              1%positive toy_kwargs 2%R (1 / 4)%R _
              eq_refl toy_oscillator_ok toy_oscillator_engine
              toy_oscillator_dbeta
              (toy_well_shaped (oscillator_V 2) oscillator_K (1 / 4)%R)
              eq_refl eq_refl
              (ex_intro _ 1%nat (conj eq_refl eq_refl))
              (ex_intro _ 1%nat (conj eq_refl eq_refl)))
    as (kv & kk & _ & HK & _ & Hkin).
  exists kk. split; [exact HK|].
  exact (Hkin 2%nat 1%R 0%R eq_refl eq_refl).
Defined.

Lemma X14_witness :
  initial_distribution 3%float (-2)%float = 1%float.
Proof.
  exact (proj1 (X14_initial_distribution_on_binary64 3%float (-2)%float)
           eq_refl).
Defined.

Lemma X15_witness :
  (WignerBlochFFTW1D (toy_parent harmonic harmonic) 1%positive
     (boot callable_kwargs)).2
  = Raise (TypeError bad_operand).
Proof.
  exact (proj1 (@X15_callable_kT_or_dbeta_raises_TypeError R _ _
                  (toy_parent harmonic harmonic) (boot callable_kwargs)
                  1%positive callable_kwargs (VCallable harmonic)
                  eq_refl eq_refl
                  (or_introl (ex_intro _ harmonic eq_refl)))).
Defined.

Lemma point_well_shaped : well_shaped point_engine.
Proof. unfold well_shaped. cbn. split_and!; congruence. Qed.

Lemma X16_witness :
  num_beta_steps
    (self (@WignerBlochFFTW1D float _ (fun x => x) point_parent 1%positive
             (boot hot_kwargs)).1)
  = Some (NInt 0).
Proof.
  exact (proj2 (proj2
           (@X16_infinite_temperature_takes_no_step (fun x => x) point_parent
              (boot hot_kwargs) 1%positive hot_kwargs f_centi point_engine
              eq_refl eq_refl eq_refl eq_refl eq_refl eq_refl
              point_well_shaped))).
Defined.

Lemma X17_witness :
  (@WignerBlochFFTW1D float _ (fun x => x) point_parent 1%positive
     (boot nan_kwargs)).2
  = Raise (ValueError nan_to_int).
Proof.
  exact (proj1 (proj2
           (@X17_nan_inputs_on_binary64 (fun x => x) point_parent
              (boot nan_kwargs) 1%positive nan_kwargs 1%float nan
              eq_refl eq_refl eq_refl) eq_refl eq_refl)).
Defined.
